(** * socket-igo: the event bus over websocket connections

    A shallow embedding of the Go server package [socketigo]
    (client.go, server.go and the file of [Room]) and of the TypeScript
    client [IgoClient], followed by the properties of the dispatch
    protocol.

    Conventions of the embedding.
    - Go pointers ([*Client], [*Room], [*ws.Conn]) are addresses into the
      heaps of a [World]; pointer comparison is comparison of addresses
      and dereferencing an address that holds no object is a run-time
      panic, as a nil dereference is.
    - Function values supplied by the application (listeners and hooks)
      are named by a [fn]; what they do is given by an [Application],
      which every library function that calls back into user code takes
      as a parameter.
    - The library functions that call user code thread a [State]: the
      world and the sequence of calls into user code made so far. *)

From stdpp Require Import gmap strings list fin_maps.

Set Warnings "-register-all".

(** ** Decoded structured data

    What the codec hands over for a JSON document ([interface{}] after
    [json.Unmarshal], [EventArg] in the client).  Numbers are never
    inspected by the library. *)
Inductive JVal : Type :=
  | JNull
  | JBool (b : bool)
  | JNum (n : Z)
  | JStr (s : string)
  | JArr (l : list JVal)
  | JObj (m : gmap string JVal).

(** [map[string]interface{}] *)
Abbreviation EventData := (gmap string JVal).

(** ** Run-time panics *)
Inductive Result (A : Type) : Type :=
  | Ok (a : A)
  | Panic.
Arguments Ok {A} a.
Arguments Panic {A}.

#[global] Instance Result_ret : MRet Result := @Ok.
#[global] Instance Result_bind : MBind Result :=
  λ A B f m, match m with Ok a => f a | Panic => Panic end.

(** [v.(string)] and [v.(map[string]interface{})] on the value found
    under a key of a decoded map: a missing key reads as nil, and the
    assertion panics on nil and on every other dynamic type. *)
Definition assert_string (v : option JVal) : Result string :=
  match v with
  | Some (JStr s) => Ok s
  | _ => Panic
  end.

Definition assert_map (v : option JVal) : Result EventData :=
  match v with
  | Some (JObj m) => Ok m
  | _ => Panic
  end.

(** [v != nil] for the value found under a key: a missing key and a JSON
    null both read as nil. *)
Definition is_nil (v : option JVal) : bool :=
  match v with
  | None | Some JNull => true
  | _ => false
  end.

(** ** The data model of the server package *)

Definition ptr := nat.
Definition fn := nat.

Inductive error : Type :=
  | TransportError
  | DecodeError
  | UpgradeError.

(** The values an [EventListener] slot can hold: a function of the
    application or the closure that [Client.Once] builds around one. *)
Inductive EventListener : Type :=
  | UserListener (f : fn)
  | OnceListener (eventName : string) (listener : EventListener).

(** Modelled from the spec: the transport handle [ws.Conn] of
    gorilla/websocket is not part of the repository.  It is a duplex
    connection that can be closed, and it keeps the frames written to
    it. *)
Record Conn : Type := mkConn {
  closed : bool;
  written : list EventData
}.

Record Client : Type := mkClient {
  Id : string;
  Events : gmap string EventListener;
  socket : ptr
}.

Record Room : Type := mkRoom {
  Room_Id : string;
  clients : list ptr;
  joinedHandler : option fn;
  leftHandler : option fn
}.

Record IgoServer : Type := mkIgoServer {
  Clients : list ptr;
  Rooms : list ptr;
  preConnectHandler : option fn;
  connectedHandler : option fn;
  disconnectedHandler : option fn;
  errHandler : option fn
}.

(** One server, the heaps of the objects its pointers refer to.  Every
    [Client] is created by [Handle] of this server, so its [Server]
    field is this server. *)
Record World : Type := mkWorld {
  server : IgoServer;
  client_heap : gmap ptr Client;
  room_heap : gmap ptr Room;
  conn_heap : gmap ptr Conn
}.

(** Calls into user code. *)
Inductive Call : Type :=
  | ListenerCall (f : fn) (client : ptr) (data : EventData)
  | HookCall (f : fn) (arg : ptr)
  | ErrCall (f : fn) (err : error).

Record State : Type := mkState {
  world : World;
  trace : list Call
}.

(** What the functions of the application do when called: any change
    of the world, and for a listener any result.  They return. *)
Record Application : Type := mkApplication {
  listener_body : fn → ptr → EventData → World → JVal * World;
  hook_body : fn → ptr → World → World;
  err_body : fn → error → World → World
}.

(** *** Field updates *)

Definition set_server (sv : IgoServer) (w : World) : World :=
  mkWorld sv (client_heap w) (room_heap w) (conn_heap w).

Definition set_client (c : ptr) (cl : Client) (w : World) : World :=
  mkWorld (server w) (<[c := cl]> (client_heap w)) (room_heap w) (conn_heap w).

Definition set_room (r : ptr) (rm : Room) (w : World) : World :=
  mkWorld (server w) (client_heap w) (<[r := rm]> (room_heap w)) (conn_heap w).

Definition set_conn (k : ptr) (cn : Conn) (w : World) : World :=
  mkWorld (server w) (client_heap w) (room_heap w) (<[k := cn]> (conn_heap w)).

Definition set_Events (ev : gmap string EventListener) (cl : Client) : Client :=
  mkClient (Id cl) ev (socket cl).

Definition set_clients (l : list ptr) (rm : Room) : Room :=
  mkRoom (Room_Id rm) l (joinedHandler rm) (leftHandler rm).

Definition set_Clients (l : list ptr) (sv : IgoServer) : IgoServer :=
  mkIgoServer l (Rooms sv) (preConnectHandler sv) (connectedHandler sv)
    (disconnectedHandler sv) (errHandler sv).

Definition set_Rooms (l : list ptr) (sv : IgoServer) : IgoServer :=
  mkIgoServer (Clients sv) l (preConnectHandler sv) (connectedHandler sv)
    (disconnectedHandler sv) (errHandler sv).

Definition set_world (w : World) (s : State) : State :=
  mkState w (trace s).

(** *** Dereferencing *)

Definition deref {A : Type} (heap : gmap ptr A) (p : ptr) : Result A :=
  match heap !! p with
  | Some a => Ok a
  | None => Panic
  end.

(** ** The transport *)

(** Modelled from the spec: [WriteJSON] writes one frame and fails with a
    transport error when the connection is closed; [Close] closes it. *)
Definition Conn_WriteJSON (v : EventData) (cn : Conn) : option error * Conn :=
  if closed cn then (Some TransportError, cn)
  else (None, mkConn false (written cn ++ [v])).

Definition Conn_Close (cn : Conn) : Conn :=
  mkConn true (written cn).

(** ** client.go *)

(** [append(l[:i], l[i+1:]...)] at the first [i] with [l[i] == p], the
    loop [for i, x := range l { if x == p { ...; break } }]. *)
Definition remove_first (p : ptr) (l : list ptr) : list ptr :=
  match list_find (λ x, x = p) l with
  | Some (i, _) => take i l ++ drop (S i) l
  | None => l
  end.

Definition createClient (uuid : string) (sock : ptr) : Client :=
  mkClient uuid ∅ sock.

Definition Client_Close (c : ptr) (w : World) : Result World :=
  cl ← deref (client_heap w) c;
  cn ← deref (conn_heap w) (socket cl);
  Ok (set_conn (socket cl) (Conn_Close cn) w).

Definition Client_Emit (c : ptr) (eventName : string) (data : JVal) (w : World)
  : Result (option error * World) :=
  cl ← deref (client_heap w) c;
  cn ← deref (conn_heap w) (socket cl);
  let '(err, cn') :=
    Conn_WriteJSON {[ "event" := JStr eventName; "data" := data ]} cn in
  Ok (err, set_conn (socket cl) cn' w).

Definition Client_On (c : ptr) (eventName : string) (listener : EventListener)
  (w : World) : Result World :=
  cl ← deref (client_heap w) c;
  Ok (set_client c (set_Events (<[eventName := listener]> (Events cl)) cl) w).

Definition Client_Once (c : ptr) (eventName : string) (listener : EventListener)
  (w : World) : Result World :=
  cl ← deref (client_heap w) c;
  Ok (set_client c
        (set_Events (<[eventName := OnceListener eventName listener]> (Events cl)) cl) w).

Definition Client_Off (c : ptr) (eventName : string) (w : World) : Result World :=
  cl ← deref (client_heap w) c;
  Ok (set_client c (set_Events (delete eventName (Events cl)) cl) w).

Section CallingUserCode.
Context (app : Application).

Definition call_hook (f : fn) (arg : ptr) (s : State) : State :=
  mkState (hook_body app f arg (world s)) (trace s ++ [HookCall f arg]).

Definition call_err (f : fn) (err : error) (s : State) : State :=
  mkState (err_body app f err (world s)) (trace s ++ [ErrCall f err]).

(** [if h != nil { h(arg) }] *)
Definition call_hook_if_set (h : option fn) (arg : ptr) (s : State) : State :=
  match h with
  | Some f => call_hook f arg s
  | None => s
  end.

Definition call_err_if_set (h : option fn) (err : error) (s : State) : State :=
  match h with
  | Some f => call_err f err s
  | None => s
  end.

(** [listener(client, data)].  The closure of [Client.Once] first runs
    [delete(client.Events, eventName)] on the client it is called
    with, then the listener it wraps. *)
Fixpoint call_listener (l : EventListener) (client : ptr) (data : EventData)
  (s : State) : Result (JVal * State) :=
  match l with
  | UserListener f =>
      let '(v, w') := listener_body app f client data (world s) in
      Ok (v, mkState w' (trace s ++ [ListenerCall f client data]))
  | OnceListener eventName listener =>
      w1 ← Client_Off client eventName (world s);
      call_listener listener client data (set_world w1 s)
  end.

Definition handleClientData (client : ptr) (data : EventData) (s : State)
  : Result State :=
  eventName ← assert_string (data !! "event");
  eventData ← assert_map (data !! "data");
  ackId ← (if is_nil (data !! "ackId") then Ok ""
           else assert_string (data !! "ackId"));
  cl ← deref (client_heap (world s)) client;
  match Events cl !! eventName with
  | Some listener =>
      '(result, s1) ← call_listener listener client eventData s;
      if decide (ackId ≠ "") then
        '(_, w2) ← Client_Emit client (eventName +:+ "@ack:" +:+ ackId)
                     (JObj {[ "result" := result ]}) (world s1);
        Ok (set_world w2 s1)
      else Ok s1
  | None => Ok s
  end.

Definition Client_Join (c : ptr) (room : ptr) (s : State) : Result State :=
  rm ← deref (room_heap (world s)) room;
  let s1 := set_world (set_room room (set_clients (clients rm ++ [c]) rm) (world s)) s in
  Ok (call_hook_if_set (joinedHandler rm) c s1).

Definition Client_Leave (c : ptr) (room : ptr) (s : State) : Result State :=
  rm ← deref (room_heap (world s)) room;
  let s1 := set_world (set_room room (set_clients (remove_first c (clients rm)) rm) (world s)) s in
  Ok (call_hook_if_set (leftHandler rm) c s1).

End CallingUserCode.

(** ** The file of [Room] *)

Definition Room_OnClientJoined (room : ptr) (listener : fn) (w : World) : Result World :=
  rm ← deref (room_heap w) room;
  Ok (set_room room (mkRoom (Room_Id rm) (clients rm) (Some listener) (leftHandler rm)) w).

Definition Room_OnClientLeft (room : ptr) (listener : fn) (w : World) : Result World :=
  rm ← deref (room_heap w) room;
  Ok (set_room room (mkRoom (Room_Id rm) (clients rm) (joinedHandler rm) (Some listener)) w).

(** [for _, client := range l { client.Emit(eventName, data) }]; the
    error [Emit] returns is dropped. *)
Fixpoint emit_all (l : list ptr) (eventName : string) (data : JVal) (w : World)
  : Result World :=
  match l with
  | [] => Ok w
  | c :: l' =>
      '(_, w1) ← Client_Emit c eventName data w;
      emit_all l' eventName data w1
  end.

(** [for _, c := range l { if c != client { c.Emit(eventName, data) } }] *)
Fixpoint emit_all_except (client : ptr) (l : list ptr) (eventName : string)
  (data : JVal) (w : World) : Result World :=
  match l with
  | [] => Ok w
  | c :: l' =>
      if decide (c ≠ client) then
        '(_, w1) ← Client_Emit c eventName data w;
        emit_all_except client l' eventName data w1
      else emit_all_except client l' eventName data w
  end.

Definition Room_Emit (room : ptr) (eventName : string) (data : JVal) (w : World)
  : Result World :=
  rm ← deref (room_heap w) room;
  emit_all (clients rm) eventName data w.

Definition Room_EmitExcept (room : ptr) (client : ptr) (eventName : string)
  (data : JVal) (w : World) : Result World :=
  rm ← deref (room_heap w) room;
  emit_all_except client (clients rm) eventName data w.

(** ** server.go *)

(** The options of [CreateIgoServer] only size the buffers of the
    upgrader. *)
Definition CreateIgoServer : World :=
  mkWorld (mkIgoServer [] [] None None None None) ∅ ∅ ∅.

Definition OnPreConnect (listener : fn) (w : World) : World :=
  let sv := server w in
  set_server (mkIgoServer (Clients sv) (Rooms sv) (Some listener)
                (connectedHandler sv) (disconnectedHandler sv) (errHandler sv)) w.

Definition OnConnected (listener : fn) (w : World) : World :=
  let sv := server w in
  set_server (mkIgoServer (Clients sv) (Rooms sv) (preConnectHandler sv)
                (Some listener) (disconnectedHandler sv) (errHandler sv)) w.

Definition OnDisconnected (listener : fn) (w : World) : World :=
  let sv := server w in
  set_server (mkIgoServer (Clients sv) (Rooms sv) (preConnectHandler sv)
                (connectedHandler sv) (Some listener) (errHandler sv)) w.

Definition IgoServer_Emit (eventName : string) (data : JVal) (w : World)
  : Result World :=
  emit_all (Clients (server w)) eventName data w.

Definition IgoServer_EmitExcept (client : ptr) (eventName : string) (data : JVal)
  (w : World) : Result World :=
  emit_all_except client (Clients (server w)) eventName data w.

(** [&Room{...}] allocates: the new room lives at an address no room
    lives at yet. *)
Definition CreateRoom (name : string) (w : World) : ptr * World :=
  let room := fresh (dom (room_heap w)) in
  let w1 := set_room room (mkRoom name [] None None) w in
  (room, set_server (set_Rooms (Rooms (server w1) ++ [room]) (server w1)) w1).

(** The loop of [GetRoom]; [None] is the nil it returns when no room
    matches. *)
Fixpoint find_room (heap : gmap ptr Room) (name : string) (l : list ptr)
  : Result (option ptr) :=
  match l with
  | [] => Ok None
  | room :: l' =>
      rm ← deref heap room;
      if decide (Room_Id rm = name) then Ok (Some room)
      else find_room heap name l'
  end.

Definition GetRoom (name : string) (w : World) : Result (option ptr) :=
  find_room (room_heap w) name (Rooms (server w)).

Definition DeleteRoom (room : ptr) (w : World) : World :=
  set_server (set_Rooms (remove_first room (Rooms (server w))) (server w)) w.

(** What [ReadMessage] followed by [json.Unmarshal] yields for the next
    frame of a connection. *)
Inductive Inbound : Type :=
  | ReadFailed (err : error)
  | Undecodable (err : error)
  | Decoded (result : EventData).

Inductive LoopStatus : Type :=
  | Terminated
  | Reading.

Section Hub.
Context (app : Application).

(** The receive loop of one client, run on the frames its connection
    yields.  It ends at the first failed read; with no frame left it is
    blocked in [ReadMessage].  The server it reaches through the client
    (the source writes [client.server]) is the server of the world. *)
Fixpoint wsReader (client : ptr) (inbound : list Inbound) (s : State)
  : Result (LoopStatus * State) :=
  match inbound with
  | [] => Ok (Reading, s)
  | ReadFailed _ :: _ =>
      cl ← deref (client_heap (world s)) client;
      let w := world s in
      let w1 := set_server (set_Clients (remove_first client (Clients (server w)))
                              (server w)) w in
      cn ← deref (conn_heap w1) (socket cl);
      let s2 := set_world (set_conn (socket cl) (Conn_Close cn) w1) s in
      Ok (Terminated,
          call_hook_if_set app (disconnectedHandler (server (world s2))) client s2)
  | Undecodable err :: rest =>
      wsReader client rest (call_err_if_set app (errHandler (server (world s))) err s)
  | Decoded result :: rest =>
      s1 ← handleClientData app client result s;
      wsReader client rest s1
  end.

(** The handler [Handle] returns, run on one request: [upgrade] is the
    error of [Upgrade], if any, and [uuid] what [uuid.New] draws.  It
    returns the client whose receive loop it starts. *)
Definition Handle (upgrade : option error) (uuid : string) (s : State)
  : option ptr * State :=
  match upgrade with
  | Some err => (None, call_err_if_set app (errHandler (server (world s))) err s)
  | None =>
      let conn := fresh (dom (conn_heap (world s))) in
      let s1 := set_world (set_conn conn (mkConn false []) (world s)) s in
      let s2 := call_hook_if_set app (preConnectHandler (server (world s1))) conn s1 in
      let client := fresh (dom (client_heap (world s2))) in
      let w3 := set_client client (createClient uuid conn) (world s2) in
      let w4 := set_server (set_Clients (Clients (server w3) ++ [client]) (server w3)) w3 in
      let s4 := set_world w4 s2 in
      (Some client,
       call_hook_if_set app (connectedHandler (server (world s4))) client s4)
  end.

End Hub.

(** ** The TypeScript client (class [IgoClient])

    One client object and the part of the JavaScript run time it uses:
    the timers it has set, the console, the closures it has created.
    The run time calls the client back with the events of its socket
    and with its timers; each callback runs to completion.

    The object [_handlers] is a map from event names to arrays.  An
    event name is taken not to be the name of a property that every
    JavaScript object inherits ([toString], [constructor] and the
    like), for which [this._handlers[event]] is not [undefined].  The
    method [emitWithAck] is not part of the embedding. *)
Module IgoClient.

(** [EventArg]: a decoded value, or [undefined]. *)
Abbreviation EventArg := (option JVal).

(** The function values that sit in [_handlers]: a function of the
    application, or the closure [onceHandler] that the [cid]-th call
    of [once] created around one.  Two function values are the same
    object exactly when they are the same term. *)
Inductive EventHandler : Type :=
  | UserHandler (f : fn)
  | OnceHandler (cid : nat) (event : string) (handler : fn).

#[global] Instance EventHandler_eq_dec : EqDecision EventHandler.
Proof. solve_decision. Defined.

(** Modelled from the spec: the [WebSocket] of the platform is not part
    of the repository.  A socket is opened on a url, takes every frame
    sent on it and keeps them. *)
Record WebSocket : Type := mkWebSocket {
  ws_url : string;
  ws_sent : list EventData
}.

Record t : Type := mk {
  _handlers : gmap string (list EventHandler);
  _reconnectTimeout : Z;
  _url : string;
  _socket : option WebSocket;
  _id : EventArg;
  _preConnectedHandler : option fn;
  _connectedHandler : option fn;
  _disconnectedHandler : option fn
}.

(** Calls of function values: a handler applied to the data of a
    frame, a hook. *)
Inductive Invocation : Type :=
  | Invoked (h : EventHandler) (data : EventArg)
  | HookInvoked (f : fn).

(** The client and its run time: the delays of the pending
    [setTimeout(() => this.connect(), ...)], the lines of
    [console.error], the number of closures [once] has created, and the
    calls of function values made so far. *)
Record Env : Type := mkEnv {
  client : t;
  timers : list Z;
  console : list string;
  closures : nat;
  invocations : list Invocation
}.

(** A decoded frame of the wire shape [{event: string, data}]. *)
Record Message : Type := mkMessage {
  msg_event : string;
  msg_data : EventArg
}.

(** What the application can do with the client from inside one of its
    functions: call the public methods, passing functions of its
    own. *)
Inductive ApiCall : Type :=
  | Call_emit (event : string) (data : EventData)
  | Call_on (event : string) (f : fn)
  | Call_off (event : string) (f : fn)
  | Call_once (event : string) (f : fn)
  | Call_onPreConnected (f : fn)
  | Call_onConnected (f : fn)
  | Call_onDisconnected (f : fn).

(** The calls a function of the application makes, given its argument
    and the client as it finds it.  A function of the application
    returns normally, unless one of its calls throws. *)
Record UserCode : Type := mkUserCode {
  handler_calls : fn → EventArg → t → list ApiCall;
  hook_calls : fn → t → list ApiCall
}.

(** How a callback ends: normally, by an exception that nobody
    catches (the state is the one reached when it was thrown), or not
    within the steps allowed. *)
Inductive Outcome : Type :=
  | Done (env : Env)
  | Thrown (msg : string) (env : Env)
  | OutOfFuel.

Definition andThen (o : Outcome) (k : Env → Outcome) : Outcome :=
  match o with
  | Done env => k env
  | Thrown msg env => Thrown msg env
  | OutOfFuel => OutOfFuel
  end.

(** *** Field updates *)

Definition with_client (c : t) (env : Env) : Env :=
  mkEnv c (timers env) (console env) (closures env) (invocations env).

Definition set_handlers (hs : gmap string (list EventHandler)) (c : t) : t :=
  mk hs (_reconnectTimeout c) (_url c) (_socket c) (_id c)
    (_preConnectedHandler c) (_connectedHandler c) (_disconnectedHandler c).

Definition set_socket (ws : option WebSocket) (c : t) : t :=
  mk (_handlers c) (_reconnectTimeout c) (_url c) ws (_id c)
    (_preConnectedHandler c) (_connectedHandler c) (_disconnectedHandler c).

Definition set_id (v : EventArg) (c : t) : t :=
  mk (_handlers c) (_reconnectTimeout c) (_url c) (_socket c) v
    (_preConnectedHandler c) (_connectedHandler c) (_disconnectedHandler c).

Definition log (i : Invocation) (env : Env) : Env :=
  mkEnv (client env) (timers env) (console env) (closures env)
    (invocations env ++ [i]).

(** *** The public methods *)

Definition emit (event : string) (data : EventData) (env : Env) : Outcome :=
  match _socket (client env) with
  | None => Thrown "Socket is not connected" env
  | Some ws =>
      let frame : EventData := {[ "event" := JStr event; "data" := JObj data ]} in
      Done (with_client
              (set_socket (Some (mkWebSocket (ws_url ws) (ws_sent ws ++ [frame])))
                 (client env)) env)
  end.

Definition on (event : string) (handler : EventHandler) (env : Env) : Env :=
  let arr := match _handlers (client env) !! event with
             | None => []
             | Some arr => arr
             end in
  with_client (set_handlers (<[event := arr ++ [handler]]> (_handlers (client env)))
                (client env)) env.

(** [arr.indexOf(handler)]; [None] stands for -1. *)
Definition indexOf (arr : list EventHandler) (handler : EventHandler) : option nat :=
  fst <$> list_find (λ x, x = handler) arr.

Definition off (event : string) (handler : EventHandler) (env : Env) : Env :=
  match _handlers (client env) !! event with
  | None => env
  | Some arr =>
      match indexOf arr handler with
      | Some index =>
          with_client (set_handlers (<[event := delete index arr]> (_handlers (client env)))
                        (client env)) env
      | None => env
      end
  end.

(** [once] creates the closure [onceHandler] and registers it. *)
Definition once (event : string) (handler : fn) (env : Env) : Env :=
  let onceHandler := OnceHandler (closures env) event handler in
  on event onceHandler
    (mkEnv (client env) (timers env) (console env) (S (closures env))
       (invocations env)).

Definition onPreConnected (handler : fn) (env : Env) : Env :=
  let c := client env in
  with_client (mk (_handlers c) (_reconnectTimeout c) (_url c) (_socket c) (_id c)
                (Some handler) (_connectedHandler c) (_disconnectedHandler c)) env.

Definition onConnected (handler : fn) (env : Env) : Env :=
  let c := client env in
  with_client (mk (_handlers c) (_reconnectTimeout c) (_url c) (_socket c) (_id c)
                (_preConnectedHandler c) (Some handler) (_disconnectedHandler c)) env.

Definition onDisconnected (handler : fn) (env : Env) : Env :=
  let c := client env in
  with_client (mk (_handlers c) (_reconnectTimeout c) (_url c) (_socket c) (_id c)
                (_preConnectedHandler c) (_connectedHandler c) (Some handler)) env.

(** [get id()] *)
Definition get_id (env : Env) : EventArg := _id (client env).

(** *** Running the functions of the application *)

Definition exec_call (c : ApiCall) (env : Env) : Outcome :=
  match c with
  | Call_emit event data => emit event data env
  | Call_on event f => Done (on event (UserHandler f) env)
  | Call_off event f => Done (off event (UserHandler f) env)
  | Call_once event f => Done (once event f env)
  | Call_onPreConnected f => Done (onPreConnected f env)
  | Call_onConnected f => Done (onConnected f env)
  | Call_onDisconnected f => Done (onDisconnected f env)
  end.

Fixpoint exec_calls (cs : list ApiCall) (env : Env) : Outcome :=
  match cs with
  | [] => Done env
  | c :: cs' => andThen (exec_call c env) (exec_calls cs')
  end.

Section Callbacks.
Context (app : UserCode).

Definition call_user (f : fn) (data : EventArg) (env : Env) : Outcome :=
  let env1 := log (Invoked (UserHandler f) data) env in
  exec_calls (handler_calls app f data (client env1)) env1.

(** [handler(data)] for a value of [_handlers].  The closure of
    [once] runs [handler(data); this.off(event, onceHandler)]. *)
Definition invoke (h : EventHandler) (data : EventArg) (env : Env) : Outcome :=
  match h with
  | UserHandler f => call_user f data env
  | OnceHandler cid event handler =>
      andThen (call_user handler data (log (Invoked h data) env))
        (λ env1, Done (off event h env1))
  end.

(** [if (hook !== null) { hook(); }] *)
Definition call_if_set (hook : option fn) (env : Env) : Outcome :=
  match hook with
  | None => Done env
  | Some f =>
      let env1 := log (HookInvoked f) env in
      exec_calls (hook_calls app f (client env1)) env1
  end.

(** [for (const handler of this._handlers[eventName]) handler(eventData)]
    from index [i] on.  The iterator reads the array at each step, so
    it sees the handlers added and removed while it runs; the array
    under a name is created once and never replaced, so reading it
    through [_handlers] reads the array the loop started on. *)
Fixpoint for_of (fuel : nat) (eventName : string) (i : nat) (eventData : EventArg)
  (env : Env) : Outcome :=
  match fuel with
  | O => OutOfFuel
  | S fuel' =>
      match _handlers (client env) !! eventName with
      | None => Done env
      | Some arr =>
          match arr !! i with
          | None => Done env
          | Some handler =>
              andThen (invoke handler eventData env)
                (for_of fuel' eventName (S i) eventData)
          end
      end
  end.

(** [this._id = ""; this._socket = new WebSocket(this._url)] *)
Definition connect (env : Env) : Env :=
  with_client (set_socket (Some (mkWebSocket (_url (client env)) []))
                (set_id (Some (JStr "")) (client env))) env.

Definition constructor (url : string) (reconnectTimeout : Z) : Env :=
  connect (mkEnv (mk ∅ reconnectTimeout url None (Some (JStr "")) None None None)
             [] [] 0 []).



(** [v !== ""] *)
Definition not_empty_string (v : EventArg) : bool :=
  match v with
  | Some (JStr "") => false
  | _ => true
  end.

(** [eventData.clientId]: reading a property of [undefined] or
    [null] throws, a value that is not an object has no such
    property. *)
Definition get_clientId (eventData : EventArg) (env : Env)
  (k : EventArg → Outcome) : Outcome :=
  match eventData with
  | None | Some JNull => Thrown "TypeError" env
  | Some (JObj m) => k (m !! "clientId")
  | Some _ => k None
  end.

Definition onMessage (fuel : nat) (message : Message) (env : Env) : Outcome :=
  let eventName := msg_event message in
  let eventData := msg_data message in
  if decide (eventName = "#handshake") then
    if not_empty_string (_id (client env)) then
      Done (mkEnv (client env) (timers env)
              (console env ++ ["Received handshake event but already connected"])
              (closures env) (invocations env))
    else
      get_clientId eventData env (λ clientId,
        let env1 := with_client (set_id clientId (client env)) env in
        call_if_set (_connectedHandler (client env1)) env1)
  else
    match _handlers (client env) !! eventName with
    | None => Done env
    | Some _ => for_of fuel eventName 0 eventData env
    end.




End Callbacks.

End IgoClient.

Import IgoClient.

(** ** Scenarios

    A small application and the worlds the examples below run in. *)

(** Listener 0 answers 5 and touches nothing.  Hook 10, meant as
    connected hook, binds listener 0 to the event x on the client it is
    given; every other hook does nothing. *)
Definition demo_app : Application :=
  mkApplication
    (λ _ _ _ w, (JNum 5, w))
    (λ f c w,
       if decide (f = 10) then
         match Client_On c "x" (UserListener 0) w with
         | Ok w' => w'
         | Panic => w
         end
       else w)
    (λ _ _ w, w).

(** A hub with one connected client, address 0, on the open connection
    0, who is the only member of the one room, address 0, named lobby. *)
Definition lobby_world : World :=
  mkWorld (mkIgoServer [0] [0] None None None None)
    {[ 0 := mkClient "c0" ∅ 0 ]}
    {[ 0 := mkRoom "lobby" [0] None None ]}
    {[ 0 := mkConn false [] ]}.

(** The same hub where the room is empty and has an on-left callback,
    hook 7. *)
Definition empty_lobby_world : World :=
  mkWorld (mkIgoServer [0] [0] None None None None)
    {[ 0 := mkClient "c0" ∅ 0 ]}
    {[ 0 := mkRoom "lobby" [] None (Some 7) ]}
    {[ 0 := mkConn false [] ]}.

(** The frame [{event: "x", data: {}, ackId: "abc"}] and the frame
    without the [ackId]. *)
Definition frame_x_abc : EventData :=
  {[ "event" := JStr "x"; "data" := JObj ∅; "ackId" := JStr "abc" ]}.

Definition frame_x : EventData :=
  {[ "event" := JStr "x"; "data" := JObj ∅ ]}.

(** The hub [lobby_world] after the receive loop of client 0 has seen a
    failed read: no live client, the connection closed, and the room as
    it was. *)
Definition lobby_world_disconnected : World :=
  mkWorld (mkIgoServer [] [0] None None None None)
    {[ 0 := mkClient "c0" ∅ 0 ]}
    {[ 0 := mkRoom "lobby" [0] None None ]}
    {[ 0 := mkConn true [] ]}.

(** A fresh hub whose connected hook is hook 10. *)
Definition accept_world : World := OnConnected 10 CreateIgoServer.

(** A client application whose functions call nothing. *)
Definition quiet_client : UserCode :=
  mkUserCode (λ _ _ _, []) (λ _ _, []).



(** ** Predicates of the server statements *)

(** No room of the hub carries the name. *)
Definition no_room_named (name : string) (w : World) : Prop :=
  ∀ r, r ∈ Rooms (server w) →
       ∃ rm, room_heap w !! r = Some rm ∧ Room_Id rm ≠ name.

(** The [ackId] of a frame is absent, null or a string. *)
Definition ackId_well_typed (data : EventData) : Prop :=
  is_nil (data !! "ackId") = true ∨ ∃ a, data !! "ackId" = Some (JStr a).

(** The reply [{event: e@ack:a, data: {result: v}}]. *)
Definition ack_frame (e a : string) (v : JVal) : EventData :=
  {[ "event" := JStr (e +:+ "@ack:" +:+ a); "data" := JObj {[ "result" := v ]} ]}.

(** A payload with exactly the keys [event] and [data]. *)
Definition wire_frame (f : EventData) : Prop :=
  dom f = {[ "event"; "data" ]}.

(** From [w] to [w'] no connection appeared and each one only gained
    frames, all of them with exactly the keys [event] and [data]. *)
Definition appends_wire_frames (w w' : World) : Prop :=
  ∀ k cn', conn_heap w' !! k = Some cn' →
    ∃ cn fs, conn_heap w !! k = Some cn ∧ written cn' = written cn ++ fs ∧
             Forall wire_frame fs.

(** ** Predicates of the client statements *)

(** The closure number of a handler, if [once] created it. *)
Definition once_cid (h : EventHandler) : option nat :=
  match h with
  | OnceHandler cid _ _ => Some cid
  | UserHandler _ => None
  end.

Definition ids (arr : list EventHandler) : list nat := omap once_cid arr.

Definition fired_of (i : Invocation) : option nat :=
  match i with
  | Invoked h _ => once_cid h
  | HookInvoked _ => None
  end.

(** The closures of [once] that were called so far, one entry per call,
    in the order of the calls. *)
Definition fired (env : Env) : list nat := omap fired_of (invocations env).

Definition registered (h : EventHandler) (env : Env) : Prop :=
  ∃ e arr, _handlers (client env) !! e = Some arr ∧ h ∈ arr.

(** The invariant of the registry.  Every closure of [once] in it sits
    under the event it was created for, was created already, and occurs
    once; a closure that was called is not in the registry, unless it is
    the one [running]; no closure was called twice. *)
Record Inv (running : option nat) (env : Env) : Prop := mkInv {
  inv_socket : _socket (client env) ≠ None;
  inv_bound : ∀ e arr cid e' f,
    _handlers (client env) !! e = Some arr → OnceHandler cid e' f ∈ arr →
    e' = e ∧ cid < closures env;
  inv_term : ∀ h1 h2 cid,
    registered h1 env → registered h2 env →
    once_cid h1 = Some cid → once_cid h2 = Some cid → h1 = h2;
  inv_nodup : ∀ e arr, _handlers (client env) !! e = Some arr → NoDup (ids arr);
  inv_fired_bound : ∀ cid, cid ∈ fired env → cid < closures env;
  inv_fired_gone : ∀ cid, cid ∈ fired env → Some cid ≠ running →
    ∀ e arr, _handlers (client env) !! e = Some arr → cid ∉ ids arr;
  inv_fired_nodup : NoDup (fired env)
}.

(** [this._handlers[event]], read as the empty array when undefined. *)
Definition array_of (event : string) (env : Env) : list EventHandler :=
  match _handlers (client env) !! event with
  | None => []
  | Some arr => arr
  end.

(** A handler that can be added under [event]: a function of the
    application, or a closure of [once] made for [event] that is neither
    registered nor called yet. *)
Definition fresh_for (event : string) (h : EventHandler) (env : Env) : Prop :=
  match h with
  | UserHandler _ => True
  | OnceHandler cid e' _ =>
      e' = event ∧ cid < closures env ∧ (cid ∉ fired env) ∧
      ∀ e arr, _handlers (client env) !! e = Some arr → cid ∉ ids arr
  end.

(** The state a callback leaves, when it ends. *)
Definition outcome_env (o : Outcome) : option Env :=
  match o with
  | Done env | Thrown _ env => Some env
  | OutOfFuel => None
  end.

(** What the calls of the application preserve. *)
Record preserved (r : option nat) (env env' : Env) : Prop := mkPreserved {
  pr_inv : Inv r env → Inv r env';
  pr_invocations : invocations env' = invocations env;
  pr_id : _id (client env') = _id (client env);
  pr_timers : timers env' = timers env;
  pr_url : _url (client env') = _url (client env);
  pr_reconnectTimeout : _reconnectTimeout (client env') = _reconnectTimeout (client env);
  pr_socket : _socket (client env) ≠ None → _socket (client env') ≠ None;
  pr_registered : ∀ W, once_cid W ≠ None → registered W env → registered W env'
}.

(** ** Further predicates of the server statements *)

(** Two bindings one after the other on the same client and event
    name, each by [On] or by [Once]. *)
Definition bind_twice (first second : ptr → string → EventListener → World → Result World)
  (c : ptr) (e : string) (l1 l2 : EventListener) (w : World) : Result World :=
  w1 ← first c e l1 w; second c e l2 w1.

(** How many entries of the list [l] are clients on connection [k]. *)
Definition entries_on (w : World) (k : ptr) (l : list ptr) : nat :=
  length (filter (λ c, socket <$> client_heap w !! c = Some k) l).

(** A connection after [n] writes of the frame [f]: a closed
    connection takes none. *)
Definition receive (n : nat) (f : EventData) (cn : Conn) : Conn :=
  if closed cn then cn else mkConn false (written cn ++ replicate n f).

(** Every entry of [l] is a client in the heap on a connection in the
    heap, so that no [Emit] on it dereferences nil. *)
Definition all_connected (w : World) (l : list ptr) : Prop :=
  ∀ c, c ∈ l → ∃ cl cn, client_heap w !! c = Some cl ∧ conn_heap w !! socket cl = Some cn.

(** The world [w'] is [w] after one [Emit] of [{event: e, data: d}] per
    entry of [l]: each connection took one frame per entry on it, and
    nothing else changed. *)
Definition delivered (l : list ptr) (e : string) (d : JVal) (w w' : World) : Prop :=
  server w' = server w ∧ client_heap w' = client_heap w ∧ room_heap w' = room_heap w ∧
  ∀ k, conn_heap w' !! k =
       receive (entries_on w k l) {[ "event" := JStr e; "data" := d ]} <$> conn_heap w !! k.

(** Every room the hub lists is in the heap. *)
Definition rooms_allocated (w : World) : Prop :=
  ∀ r, r ∈ Rooms (server w) → is_Some (room_heap w !! r).

(** Every client the hub lists is in the heap. *)
Definition clients_allocated (w : World) : Prop :=
  ∀ c, c ∈ Clients (server w) → is_Some (client_heap w !! c).

(** [ReadMessage] returned an error. *)
Definition read_failure (i : Inbound) : Prop :=
  match i with
  | ReadFailed _ => True
  | _ => False
  end.

(** No listener of the application sets the error hook of the hub,
    for which the package exports no setter. *)
Definition listeners_keep_no_error_hook (app : Application) : Prop :=
  ∀ f c d w, errHandler (server w) = None →
             errHandler (server (listener_body app f c d w).2) = None.

(** The next frame is not one that [json.Unmarshal] rejects. *)
Definition decodable (i : Inbound) : Prop :=
  match i with
  | Undecodable _ => False
  | _ => True
  end.

#[global] Instance decodable_dec i : Decision (decodable i).
Proof. destruct i; cbn; apply _. Defined.

(** ** Further predicates of the client statements *)

(** A function of the application that calls no method of the client
    when given [data]. *)
Definition quiet (app : UserCode) (data : EventArg) (h : EventHandler) : Prop :=
  ∃ f, h = UserHandler f ∧ ∀ c, handler_calls app f data c = [].

(** The calls of the handlers [hs] on [data], in order, added to the
    calls made so far. *)
Definition log_all (hs : list EventHandler) (data : EventArg) (env : Env) : Env :=
  mkEnv (client env) (timers env) (console env) (closures env)
    (invocations env ++ map (λ h, Invoked h data) hs).

(** A client with a one-shot handler and then a plain handler under
    the event x. *)
Definition two_handlers : Env :=
  on "x" (UserHandler 1) (once "x" 0 (constructor "ws://hub" 5000)).


(** The state after a handshake frame was refused: one more line on
    the console. *)
Definition rejected_handshake (env : Env) : Env :=
  mkEnv (client env) (timers env)
    (console env ++ ["Received handshake event but already connected"])
    (closures env) (invocations env).

(** [eventData.clientId] for a value that is neither [undefined] nor
    [null]. *)
Definition clientId_of (v : JVal) : EventArg :=
  match v with
  | JObj m => m !! "clientId"
  | _ => None
  end.

(** The call of a hook, if there is one. *)
Definition hook_invocation (hook : option fn) : list Invocation :=
  match hook with
  | Some f => [HookInvoked f]
  | None => []
  end.






(** * Properties of the server *)

(** ** Removing the first occurrence *)

Lemma remove_first_notin (p : ptr) (l : list ptr) :
  p ∉ l → remove_first p l = l.
Proof.
  intros Hp. unfold remove_first.
  destruct (list_find (λ x, x = p) l) as [[i x]|] eqn:Hf; [|done].
  apply list_find_Some in Hf as (Hl & -> & _).
  exfalso. apply Hp. by eapply list_elem_of_lookup_2.
Qed.

Lemma remove_first_split (p : ptr) (l : list ptr) :
  p ∈ l →
  ∃ l1 l2, l = l1 ++ (p :: l2) ∧ (p ∉ l1) ∧ remove_first p l = l1 ++ l2.
Proof.
  intros Hp. unfold remove_first.
  destruct (list_find (λ x, x = p) l) as [[i x]|] eqn:Hf.
  - apply list_find_Some in Hf as (Hl & -> & Hmin).
    exists (take i l), (drop (S i) l). split_and!.
    + by rewrite take_drop_middle.
    + intros Hin. apply list_elem_of_lookup in Hin as [j Hj].
      assert (j < i) as Hlt.
      { apply lookup_lt_Some in Hj. rewrite length_take in Hj. lia. }
      rewrite lookup_take_lt in Hj by done.
      by apply (Hmin j p).
    + done.
  - apply list_find_None in Hf. rewrite Forall_forall in Hf.
    exfalso. by apply (Hf p).
Qed.

Lemma remove_first_NoDup (p : ptr) (l : list ptr) :
  NoDup l → p ∉ remove_first p l.
Proof.
  intros Hnd. destruct (decide (p ∈ l)) as [Hin|Hin].
  - destruct (remove_first_split p l Hin) as (l1 & l2 & -> & Hl1 & ->).
    apply NoDup_app in Hnd as (_ & Hdisj & Hnd2).
    apply NoDup_cons in Hnd2 as [Hl2 _].
    rewrite elem_of_app. intros [?|?]; done.
  - by rewrite remove_first_notin.
Qed.

Lemma find_room_first heap name l1 r rm l2 :
  (∀ r', r' ∈ l1 → ∃ rm', heap !! r' = Some rm' ∧ Room_Id rm' ≠ name) →
  heap !! r = Some rm → Room_Id rm = name →
  find_room heap name (l1 ++ r :: l2) = Ok (Some r).
Proof.
  intros Hl1 Hr Hname. induction l1 as [|r' l1 IH]; simpl.
  - unfold deref. rewrite Hr. simpl. by rewrite decide_True.
  - destruct (Hl1 r') as (rm' & Hr' & Hne); [by left|].
    unfold deref. rewrite Hr'. simpl. rewrite decide_False by done.
    apply IH. intros r'' Hin. apply Hl1. by right.
Qed.

Lemma find_room_none heap name l :
  (∀ r', r' ∈ l → ∃ rm', heap !! r' = Some rm' ∧ Room_Id rm' ≠ name) →
  find_room heap name l = Ok None.
Proof.
  intros Hl. induction l as [|r' l IH]; simpl; [done|].
  destruct (Hl r') as (rm' & Hr' & Hne); [by left|].
  unfold deref. rewrite Hr'. simpl. rewrite decide_False by done.
  apply IH. intros r'' Hin. apply Hl. by right.
Qed.

Lemma find_room_none_inv heap name l :
  find_room heap name l = Ok None →
  ∀ r', r' ∈ l → ∃ rm', heap !! r' = Some rm' ∧ Room_Id rm' ≠ name.
Proof.
  induction l as [|r l IH]; cbn [find_room]; intros Hfind r' Hin.
  - by apply elem_of_nil in Hin.
  - unfold deref in Hfind. destruct (heap !! r) as [rm|] eqn:Hr; [|done].
    cbn [mbind Result_bind] in Hfind. case_decide as Hname; [done|].
    apply elem_of_cons in Hin as [->|Hin]; [by exists rm|by apply IH].
Qed.

(** ** Rooms of the hub *)

(** C9.  [CreateRoom] checks nothing: called twice with the same name,
    it leaves two rooms of that name at two different addresses, both
    empty, appended to the rooms of the hub in the order of the calls (a
    client who joins the first is no member of the second).  When no
    room carried the name before, [GetRoom] of the name then returns the
    first of the two.  [GetRoom] returns nil exactly when no room of the
    hub carries the name. *)
Theorem CreateRoom_twice (app : Application) (name : string) (w : World) :
  let r1 := (CreateRoom name w).1 in
  let w1 := (CreateRoom name w).2 in
  let r2 := (CreateRoom name w1).1 in
  let w2 := (CreateRoom name w1).2 in
  r1 ≠ r2 ∧
  Rooms (server w2) = Rooms (server w) ++ [r1; r2] ∧
  room_heap w2 !! r1 = Some (mkRoom name [] None None) ∧
  room_heap w2 !! r2 = Some (mkRoom name [] None None) ∧
  (GetRoom name w = Ok None → GetRoom name w2 = Ok (Some r1)) ∧
  (∀ c tr, ∃ s', Client_Join app c r1 (mkState w2 tr) = Ok s' ∧
     clients <$> room_heap (world s') !! r1 = Some [c] ∧
     clients <$> room_heap (world s') !! r2 = Some []) ∧
  (∀ other w', GetRoom other w' = Ok None ↔ no_room_named other w').
Proof.
  intros r1 w1 r2 w2.
  assert (room_heap w !! r1 = None) as Hr1.
  { apply not_elem_of_dom. apply is_fresh. }
  assert (room_heap w1 !! r2 = None) as Hr2.
  { apply not_elem_of_dom. apply is_fresh. }
  assert (room_heap w1 !! r1 = Some (mkRoom name [] None None)) as Hw1.
  { subst w1. simpl. apply lookup_insert_eq. }
  assert (r1 ≠ r2) as Hne by congruence.
  assert (room_heap w2 !! r1 = Some (mkRoom name [] None None)) as Hw21.
  { subst w2. simpl. by rewrite lookup_insert_ne. }
  assert (room_heap w2 !! r2 = Some (mkRoom name [] None None)) as Hw22.
  { subst w2. simpl. apply lookup_insert_eq. }
  split_and!; try done.
  - subst w2 w1. simpl. by rewrite <- app_assoc.
  - intros Hno. unfold GetRoom.
    replace (Rooms (server w2)) with (Rooms (server w) ++ r1 :: [r2])
      by (subst w2 w1; simpl; by rewrite <- app_assoc).
    eapply find_room_first; [|exact Hw21|done].
    intros r' Hin.
    destruct (find_room_none_inv (room_heap w) name (Rooms (server w)) Hno r' Hin)
      as (rm' & Hrm' & Hn).
    exists rm'. split; [|done].
    assert (r1 ≠ r') as Hn1 by congruence.
    assert (room_heap w1 !! r' = Some rm') as Hrm1.
    { subst w1. simpl. by rewrite lookup_insert_ne. }
    assert (r2 ≠ r') as Hn2 by congruence.
    subst w2. simpl. by rewrite lookup_insert_ne.
  - intros c tr. eexists. split.
    + unfold Client_Join. cbn [world]. unfold deref. rewrite Hw21. simpl. reflexivity.
    + unfold set_world, set_room. cbn [world room_heap].
      rewrite lookup_insert_eq, lookup_insert_ne by done. by rewrite Hw22.
  - intros other w'. split.
    + intros Hnone r' Hin. by eapply find_room_none_inv.
    + apply find_room_none.
Qed.

Lemma CreateRoom_twice_witness :
  GetRoom "lobby" (CreateRoom "lobby" (CreateRoom "lobby" CreateIgoServer).2).2
  = Ok (Some (CreateRoom "lobby" CreateIgoServer).1).
Proof.
  exact (proj1 (proj2 (proj2 (proj2 (proj2
           (CreateRoom_twice demo_app "lobby" CreateIgoServer))))) eq_refl).
Defined.

(** ** Dispatch of a decoded frame *)

Lemma deref_Some {A} (heap : gmap ptr A) p a : heap !! p = Some a → deref heap p = Ok a.
Proof. intros H. unfold deref. by rewrite H. Qed.

Lemma frame_lookup_event (e : string) (d : JVal) :
  ({[ "event" := JStr e; "data" := d ]} : EventData) !! "event" = Some (JStr e).
Proof. apply lookup_insert_eq. Qed.

Lemma frame_lookup_data (e : string) (d : JVal) :
  ({[ "event" := JStr e; "data" := d ]} : EventData) !! "data" = Some d.
Proof. rewrite lookup_insert_ne by done. apply lookup_singleton_eq. Qed.

Lemma frame_lookup_ackId (e : string) (d : JVal) :
  ({[ "event" := JStr e; "data" := d ]} : EventData) !! "ackId" = None.
Proof. rewrite lookup_insert_ne by done. by rewrite lookup_singleton_ne. Qed.

Lemma frame_dom (e : string) (d : JVal) :
  dom ({[ "event" := JStr e; "data" := d ]} : EventData) = {[ "event"; "data" ]}.
Proof. rewrite dom_insert_L, dom_singleton_L. done. Qed.

(** The shape of [handleClientData] on a frame whose fields have the
    asserted types. *)
Lemma handleClientData_unfold app client data e d cl s :
  data !! "event" = Some (JStr e) →
  data !! "data" = Some (JObj d) →
  client_heap (world s) !! client = Some cl →
  ackId_well_typed data →
  ∃ ackId,
    (if is_nil (data !! "ackId") then ackId = "" else data !! "ackId" = Some (JStr ackId)) ∧
    handleClientData app client data s =
      match Events cl !! e with
      | Some listener =>
          '(result, s1) ← call_listener app listener client d s;
          if decide (ackId ≠ "") then
            '(_, w2) ← Client_Emit client (e +:+ "@ack:" +:+ ackId)
                         (JObj {[ "result" := result ]}) (world s1);
            Ok (set_world w2 s1)
          else Ok s1
      | None => Ok s
      end.
Proof.
  intros He Hd Hcl Hack. unfold handleClientData.
  rewrite He, Hd. cbn [assert_string assert_map mbind Result_bind].
  destruct Hack as [Hnil|[a Ha]].
  - rewrite Hnil. exists "". split; [done|].
    cbn [mbind Result_bind]. rewrite (deref_Some _ _ _ Hcl). done.
  - rewrite Ha. cbn [is_nil assert_string mbind Result_bind]. exists a. split; [done|].
    rewrite (deref_Some _ _ _ Hcl). done.
Qed.

Lemma handleClientData_Ok_ackId app client data e d s s' :
  data !! "event" = Some (JStr e) →
  data !! "data" = Some (JObj d) →
  handleClientData app client data s = Ok s' →
  ackId_well_typed data.
Proof.
  intros He Hd Hrun. unfold handleClientData in Hrun. rewrite He, Hd in Hrun.
  cbn [assert_string assert_map mbind Result_bind] in Hrun.
  unfold ackId_well_typed.
  destruct (data !! "ackId") as [[| | |a| |]|]; cbn in Hrun |- *;
    try discriminate Hrun; eauto.
Qed.

(** C6.  After [p.On(e, h)], the frame [{event: e, data: d}] makes one
    call into user code, [h(p, d)], and leaves the world as [h] leaves
    it; whatever other fields a frame with this event and data has, a
    dispatch that returns made exactly that one call.  A frame whose
    event has no listener on the client is dropped: the state is
    unchanged, with no panic and no call. *)
Theorem Client_On_dispatch (app : Application) (p : ptr) (cl : Client)
  (e : string) (h : fn) (d : EventData) (w : World) (tr : list Call) :
  client_heap w !! p = Some cl →
  let w1 := set_client p (set_Events (<[e := UserListener h]> (Events cl)) cl) w in
  Client_On p e (UserListener h) w = Ok w1 ∧
  handleClientData app p {[ "event" := JStr e; "data" := JObj d ]} (mkState w1 tr)
    = Ok (mkState (listener_body app h p d w1).2 (tr ++ [ListenerCall h p d])) ∧
  (∀ data s', data !! "event" = Some (JStr e) → data !! "data" = Some (JObj d) →
     handleClientData app p data (mkState w1 tr) = Ok s' →
     trace s' = tr ++ [ListenerCall h p d]) ∧
  (∀ e' d' data s cl', client_heap (world s) !! p = Some cl' → Events cl' !! e' = None →
     data !! "event" = Some (JStr e') → data !! "data" = Some (JObj d') →
     ackId_well_typed data →
     handleClientData app p data s = Ok s).
Proof.
  intros Hcl w1. split.
  { unfold Client_On. by rewrite (deref_Some _ _ _ Hcl). }
  set (cl1 := set_Events (<[e := UserListener h]> (Events cl)) cl) in w1.
  assert (client_heap w1 !! p = Some cl1) as Hcl1.
  { subst w1. simpl. apply lookup_insert_eq. }
  assert (Events cl1 !! e = Some (UserListener h)) as Hev.
  { subst cl1. simpl. apply lookup_insert_eq. }
  assert (∀ data s', data !! "event" = Some (JStr e) → data !! "data" = Some (JObj d) →
       handleClientData app p data (mkState w1 tr) = Ok s' →
       trace s' = tr ++ [ListenerCall h p d]) as Htrace.
  { intros data s' He Hd Hrun.
    pose proof (handleClientData_Ok_ackId _ _ _ _ _ _ _ He Hd Hrun) as Hack.
    destruct (handleClientData_unfold app p data e d cl1 (mkState w1 tr) He Hd Hcl1 Hack)
      as (a & _ & Heq).
    rewrite Heq, Hev in Hrun. cbn [call_listener world trace] in Hrun.
    destruct (listener_body app h p d w1) as [v w'].
    cbn [mbind Result_bind] in Hrun.
    case_decide.
    - destruct (Client_Emit _ _ _ _) as [[err w2]|]; [|done].
      cbn in Hrun. by inversion Hrun.
    - by inversion Hrun. }
  split_and!.
  - destruct (handleClientData_unfold app p {[ "event" := JStr e; "data" := JObj d ]}
                e d cl1 (mkState w1 tr)) as (a & Ha & ->).
    + apply frame_lookup_event.
    + apply frame_lookup_data.
    + exact Hcl1.
    + left. by rewrite frame_lookup_ackId.
    + rewrite frame_lookup_ackId in Ha. cbn in Ha. subst a.
      rewrite Hev. cbn [call_listener world trace].
      destruct (listener_body app h p d w1) as [v w'] eqn:Hb. cbn.
      rewrite decide_False by (intros Hn; by apply Hn). done.
  - exact Htrace.
  - intros e' d' data s cl' Hcl' Hnone He Hd Hack.
    destruct (handleClientData_unfold app p data e' d' cl' s He Hd Hcl' Hack)
      as (a & _ & ->).
    by rewrite Hnone.
Qed.

Lemma Client_On_dispatch_witness :
  handleClientData demo_app 0 frame_x
    (mkState (set_client 0 (mkClient "c0" {[ "x" := UserListener 0 ]} 0) lobby_world) [])
  = Ok (mkState (set_client 0 (mkClient "c0" {[ "x" := UserListener 0 ]} 0) lobby_world)
          [ListenerCall 0 0 ∅]).
Proof.
  exact (proj1 (proj2 (Client_On_dispatch demo_app 0 (mkClient "c0" ∅ 0) "x" 0 ∅
                         lobby_world [] eq_refl))).
Defined.

(** C8.  On a decoded frame whose [event] is not a string or whose
    [data] is not a key-value object, [handleClientData] panics, and so
    does the receive loop that was handed the frame: the error hook is
    not called and no later frame is read. *)
Theorem handleClientData_missing_fields (app : Application) (client : ptr)
  (data : EventData) (s : State) :
  (∀ e, data !! "event" ≠ Some (JStr e)) ∨ (∀ d, data !! "data" ≠ Some (JObj d)) →
  handleClientData app client data s = Panic ∧
  ∀ rest, wsReader app client (Decoded data :: rest) s = Panic.
Proof.
  intros Hbad.
  assert (handleClientData app client data s = Panic) as Hp.
  { unfold handleClientData.
    destruct Hbad as [Hbad|Hbad].
    - destruct (data !! "event") as [[| | |e| |]|] eqn:He; try done.
      by destruct (Hbad e).
    - destruct (assert_string (data !! "event")) as [e|]; [|done].
      cbn [mbind Result_bind].
      destruct (data !! "data") as [[| | | | |d]|] eqn:Hd; try done.
      by destruct (Hbad d). }
  split; [done|]. intros rest. cbn [wsReader]. by rewrite Hp.
Qed.

Lemma handleClientData_missing_fields_witness :
  handleClientData demo_app 0 {[ "data" := JObj ∅ ]} (mkState lobby_world []) = Panic.
Proof.
  refine (proj1 (handleClientData_missing_fields demo_app 0 {[ "data" := JObj ∅ ]}
                   (mkState lobby_world []) _)).
  left. intros e. by rewrite lookup_singleton_ne.
Defined.

Lemma Client_Emit_open c e d w cl cn :
  client_heap w !! c = Some cl → conn_heap w !! socket cl = Some cn →
  closed cn = false →
  Client_Emit c e d w =
    Ok (None, set_conn (socket cl)
                (mkConn false (written cn ++ [{[ "event" := JStr e; "data" := d ]}])) w).
Proof.
  intros Hcl Hcn Hopen. unfold Client_Emit.
  rewrite (deref_Some _ _ _ Hcl). cbn [mbind Result_bind].
  rewrite (deref_Some _ _ _ Hcn). cbn [mbind Result_bind].
  unfold Conn_WriteJSON. by rewrite Hopen.
Qed.

Lemma Client_Emit_closed c e d w cl cn :
  client_heap w !! c = Some cl → conn_heap w !! socket cl = Some cn →
  closed cn = true →
  Client_Emit c e d w = Ok (Some TransportError, w).
Proof.
  intros Hcl Hcn Hclosed. unfold Client_Emit.
  rewrite (deref_Some _ _ _ Hcl). cbn [mbind Result_bind].
  rewrite (deref_Some _ _ _ Hcn). cbn [mbind Result_bind].
  unfold Conn_WriteJSON. rewrite Hclosed. f_equal. f_equal.
  destruct w as [sv ch rh kh]. unfold set_conn. cbn in *. f_equal.
  by apply insert_id.
Qed.

(** C4.  Take a frame with event [e] and data [d] on a client whose
    listener for [e] returns [v].  With an [ackId] that is a non-empty
    string [a], and the connection of the client open once the listener
    has returned, the dispatch appends to that connection the one frame
    [{event: e@ack:a, data: {result: v}}] and changes nothing else in
    what the listener left; with that connection closed, the write
    fails and nothing is appended.  With the [ackId] absent, null or
    empty the dispatch ends in the state the listener left: nothing is
    written. *)
Theorem handleClientData_ack (app : Application) (client : ptr) (cl : Client)
  (e : string) (d data : EventData) (listener : EventListener) (v : JVal)
  (s s1 : State) :
  data !! "event" = Some (JStr e) →
  data !! "data" = Some (JObj d) →
  client_heap (world s) !! client = Some cl →
  Events cl !! e = Some listener →
  call_listener app listener client d s = Ok (v, s1) →
  (∀ a cl1 cn,
     data !! "ackId" = Some (JStr a) → a ≠ "" →
     client_heap (world s1) !! client = Some cl1 →
     conn_heap (world s1) !! socket cl1 = Some cn → closed cn = false →
     handleClientData app client data s =
       Ok (set_world (set_conn (socket cl1)
                        (mkConn false (written cn ++ [ack_frame e a v])) (world s1)) s1)) ∧
  (∀ a cl1 cn,
     data !! "ackId" = Some (JStr a) → a ≠ "" →
     client_heap (world s1) !! client = Some cl1 →
     conn_heap (world s1) !! socket cl1 = Some cn → closed cn = true →
     handleClientData app client data s = Ok s1) ∧
  (is_nil (data !! "ackId") = true ∨ data !! "ackId" = Some (JStr "") →
     handleClientData app client data s = Ok s1).
Proof.
  intros He Hd Hcl Hev Hcall. split_and!.
  - intros a cl1 cn Ha Hne Hcl1 Hcn Hopen.
    destruct (handleClientData_unfold app client data e d cl s He Hd Hcl)
      as (a' & Ha' & ->); [right; eauto|].
    rewrite Ha in Ha'. cbn in Ha'. injection Ha' as <-.
    rewrite Hev, Hcall. cbn [mbind Result_bind].
    rewrite decide_True by done.
    by rewrite (Client_Emit_open _ _ _ _ _ _ Hcl1 Hcn Hopen).
  - intros a cl1 cn Ha Hne Hcl1 Hcn Hclosed.
    destruct (handleClientData_unfold app client data e d cl s He Hd Hcl)
      as (a' & Ha' & ->); [right; eauto|].
    rewrite Ha in Ha'. cbn in Ha'. injection Ha' as <-.
    rewrite Hev, Hcall. cbn [mbind Result_bind].
    rewrite decide_True by done.
    rewrite (Client_Emit_closed _ _ _ _ _ _ Hcl1 Hcn Hclosed).
    cbn [mbind Result_bind]. by destruct s1.
  - intros Hno.
    destruct (handleClientData_unfold app client data e d cl s He Hd Hcl)
      as (a' & Ha' & ->).
    { destruct Hno; [by left|right; eauto]. }
    rewrite Hev, Hcall. cbn [mbind Result_bind].
    assert (a' = "") as ->.
    { destruct Hno as [Hn|Hn]; rewrite Hn in Ha'; cbn in Ha'; congruence. }
    rewrite decide_False; [done|]. intros Hn. by apply Hn.
Qed.

Lemma handleClientData_ack_witness :
  handleClientData demo_app 0 frame_x_abc
    (mkState (set_client 0 (mkClient "c0" {[ "x" := UserListener 0 ]} 0) lobby_world) [])
  = Ok (mkState
          (set_conn 0 (mkConn false [ack_frame "x" "abc" (JNum 5)])
             (set_client 0 (mkClient "c0" {[ "x" := UserListener 0 ]} 0) lobby_world))
          [ListenerCall 0 0 ∅]).
Proof.
  refine (proj1 (handleClientData_ack demo_app 0
    (mkClient "c0" {[ "x" := UserListener 0 ]} 0) "x" ∅ frame_x_abc (UserListener 0)
    (JNum 5)
    (mkState (set_client 0 (mkClient "c0" {[ "x" := UserListener 0 ]} 0) lobby_world) [])
    (mkState (set_client 0 (mkClient "c0" {[ "x" := UserListener 0 ]} 0) lobby_world)
       [ListenerCall 0 0 ∅]) _ _ _ _ _)
    "abc" (mkClient "c0" {[ "x" := UserListener 0 ]} 0) (mkConn false []) _ _ _ _ _);
    try reflexivity.
  discriminate.
Defined.

Lemma appends_wire_frames_refl w : appends_wire_frames w w.
Proof.
  intros k cn' Hk. exists cn', []. split_and!; [done| |done].
  by rewrite app_nil_r.
Qed.

Lemma appends_wire_frames_trans w1 w2 w3 :
  appends_wire_frames w1 w2 → appends_wire_frames w2 w3 → appends_wire_frames w1 w3.
Proof.
  intros H12 H23 k cn3 Hk.
  destruct (H23 k cn3 Hk) as (cn2 & fs2 & Hk2 & Hw2 & Hf2).
  destruct (H12 k cn2 Hk2) as (cn1 & fs1 & Hk1 & Hw1 & Hf1).
  exists cn1, (fs1 ++ fs2). split_and!; [done| |by apply Forall_app].
  by rewrite Hw2, Hw1, app_assoc.
Qed.

Lemma wire_frame_no_ackId f : wire_frame f → f !! "ackId" = None.
Proof.
  unfold wire_frame. intros Hdom. apply not_elem_of_dom. rewrite Hdom.
  rewrite elem_of_union, !elem_of_singleton. by intros [?|?].
Qed.

Lemma Client_Emit_appends c e d w err w' :
  Client_Emit c e d w = Ok (err, w') → appends_wire_frames w w'.
Proof.
  unfold Client_Emit. intros Hrun.
  destruct (client_heap w !! c) as [cl|] eqn:Hcl;
    [rewrite (deref_Some _ _ _ Hcl) in Hrun|unfold deref in Hrun; by rewrite Hcl in Hrun].
  cbn [mbind Result_bind] in Hrun.
  destruct (conn_heap w !! socket cl) as [cn|] eqn:Hcn;
    [rewrite (deref_Some _ _ _ Hcn) in Hrun|unfold deref in Hrun; by rewrite Hcn in Hrun].
  cbn [mbind Result_bind] in Hrun. unfold Conn_WriteJSON in Hrun.
  destruct (closed cn) eqn:Hclosed; injection Hrun as <- <-;
    intros k cn' Hk; cbn in Hk.
  - rewrite insert_id in Hk by done. exists cn', []. split_and!; [done| |done].
    by rewrite app_nil_r.
  - destruct (decide (k = socket cl)) as [->|Hne].
    + rewrite lookup_insert_eq in Hk. injection Hk as <-.
      eexists cn, [_]. split_and!; [done|done|].
      apply Forall_singleton. apply frame_dom.
    + rewrite lookup_insert_ne in Hk by done. exists cn', []. split_and!; [done| |done].
      by rewrite app_nil_r.
Qed.

Lemma emit_all_appends l e d w w' :
  emit_all l e d w = Ok w' → appends_wire_frames w w'.
Proof.
  revert w. induction l as [|c l IH]; intros w Hrun; cbn in Hrun.
  - injection Hrun as <-. apply appends_wire_frames_refl.
  - destruct (Client_Emit c e d w) as [[err w1]|] eqn:Hc; [|done].
    cbn in Hrun. eapply appends_wire_frames_trans.
    + by eapply Client_Emit_appends.
    + by apply IH.
Qed.

Lemma emit_all_except_appends x l e d w w' :
  emit_all_except x l e d w = Ok w' → appends_wire_frames w w'.
Proof.
  revert w. induction l as [|c l IH]; intros w Hrun; cbn in Hrun.
  - injection Hrun as <-. apply appends_wire_frames_refl.
  - case_decide.
    + destruct (Client_Emit c e d w) as [[err w1]|] eqn:Hc; [|done].
      cbn in Hrun. eapply appends_wire_frames_trans.
      * by eapply Client_Emit_appends.
      * by apply IH.
    + by apply IH.
Qed.

(** C10.  A payload with exactly the keys [event] and [data] has no
    [ackId].  [Client.Emit] writes at most one frame, the payload
    [{event, data}] of its arguments, and only to the connection of its
    client; the broadcasts of rooms and of the hub only add such
    payloads; and what [handleClientData] writes after the listener has
    returned, the acknowledgement, is such a payload too. *)
Theorem emitted_frames_have_event_and_data_only (app : Application) :
  (∀ f, wire_frame f → f !! "ackId" = None) ∧
  (∀ c e d w err w', Client_Emit c e d w = Ok (err, w') →
     appends_wire_frames w w' ∧
     (err = None →
        ∃ cl cn, client_heap w !! c = Some cl ∧ conn_heap w !! socket cl = Some cn ∧
          conn_heap w' !! socket cl =
            Some (mkConn false (written cn ++ [{[ "event" := JStr e; "data" := d ]}])))) ∧
  (∀ r e d w w', Room_Emit r e d w = Ok w' → appends_wire_frames w w') ∧
  (∀ r x e d w w', Room_EmitExcept r x e d w = Ok w' → appends_wire_frames w w') ∧
  (∀ e d w w', IgoServer_Emit e d w = Ok w' → appends_wire_frames w w') ∧
  (∀ x e d w w', IgoServer_EmitExcept x e d w = Ok w' → appends_wire_frames w w') ∧
  (∀ c data s s', handleClientData app c data s = Ok s' →
     s' = s ∨
     ∃ listener d v s1, call_listener app listener c d s = Ok (v, s1) ∧
       trace s' = trace s1 ∧ appends_wire_frames (world s1) (world s')).
Proof.
  split_and!.
  - apply wire_frame_no_ackId.
  - intros c e d w err w' Hrun. split; [by eapply Client_Emit_appends|].
    intros ->. unfold Client_Emit in Hrun.
    destruct (client_heap w !! c) as [cl|] eqn:Hcl;
      [rewrite (deref_Some _ _ _ Hcl) in Hrun|unfold deref in Hrun; by rewrite Hcl in Hrun].
    cbn [mbind Result_bind] in Hrun.
    destruct (conn_heap w !! socket cl) as [cn|] eqn:Hcn;
      [rewrite (deref_Some _ _ _ Hcn) in Hrun|unfold deref in Hrun; by rewrite Hcn in Hrun].
    cbn [mbind Result_bind] in Hrun. unfold Conn_WriteJSON in Hrun.
    destruct (closed cn); [done|]. injection Hrun as <-.
    exists cl, cn. split_and!; [done|done|]. cbn. apply lookup_insert_eq.
  - intros r e d w w'. unfold Room_Emit.
    destruct (deref (room_heap w) r); [|done]. apply emit_all_appends.
  - intros r x e d w w'. unfold Room_EmitExcept.
    destruct (deref (room_heap w) r); [|done]. apply emit_all_except_appends.
  - intros e d w w'. apply emit_all_appends.
  - intros x e d w w'. apply emit_all_except_appends.
  - intros c data s s' Hrun. unfold handleClientData in Hrun.
    destruct (assert_string (data !! "event")) as [e|]; [|done].
    destruct (assert_map (data !! "data")) as [d|]; [|done].
    cbn [mbind Result_bind] in Hrun.
    destruct (if is_nil (data !! "ackId") then Ok "" else assert_string (data !! "ackId"))
      as [a|]; [|done].
    cbn [mbind Result_bind] in Hrun.
    destruct (deref (client_heap (world s)) c) as [cl|]; [|done].
    cbn [mbind Result_bind] in Hrun.
    destruct (Events cl !! e) as [listener|]; [|left; by injection Hrun].
    right. destruct (call_listener app listener c d s) as [[v s1]|] eqn:Hcall; [|done].
    cbn [mbind Result_bind] in Hrun. exists listener, d, v, s1. split; [done|].
    case_decide.
    + destruct (Client_Emit _ _ _ _) as [[err w2]|] eqn:Hemit; [|done].
      cbn in Hrun. injection Hrun as <-. split; [done|].
      by eapply Client_Emit_appends.
    + injection Hrun as <-. split; [done|]. apply appends_wire_frames_refl.
Qed.

Lemma emitted_frames_have_event_and_data_only_witness :
  appends_wire_frames lobby_world
    (set_conn 0 (mkConn false [{[ "event" := JStr "ping"; "data" := JObj ∅ ]}])
       lobby_world).
Proof.
  refine (proj1 (proj1 (proj2 (emitted_frames_have_event_and_data_only demo_app))
                   0 "ping" (JObj ∅) lobby_world None _ _)).
  reflexivity.
Defined.

(** ** Leaving a room *)

(** C3, as stated, fails: client 0 is no member of the room, and its
    [Leave] calls the on-left callback of the room all the same. *)
Lemma Client_Leave_non_member_calls_back :
  Client_Leave demo_app 0 0 (mkState empty_lobby_world [])
  = Ok (mkState empty_lobby_world [HookCall 7 0]).
Proof. vm_compute. reflexivity. Qed.

(** C3, amended.  [p.Leave(r)] replaces the membership of [r] by the
    membership without its first entry equal to [p]: unchanged when [p]
    is no member, and otherwise the entries before the first [p]
    followed by the entries after it.  In both cases it then calls the
    on-left callback of [r] with [p], if one is set. *)
Theorem Client_Leave_spec (app : Application) (c room : ptr) (rm : Room) (s : State) :
  room_heap (world s) !! room = Some rm →
  let w1 := set_room room (set_clients (remove_first c (clients rm)) rm) (world s) in
  ((c ∉ clients rm) → remove_first c (clients rm) = clients rm) ∧
  (c ∈ clients rm →
     ∃ l1 l2, clients rm = l1 ++ (c :: l2) ∧ (c ∉ l1) ∧
              remove_first c (clients rm) = l1 ++ l2) ∧
  (∀ f, leftHandler rm = Some f →
     Client_Leave app c room s =
       Ok (mkState (hook_body app f c w1) (trace s ++ [HookCall f c]))) ∧
  (leftHandler rm = None →
     Client_Leave app c room s = Ok (mkState w1 (trace s))).
Proof.
  intros Hrm w1. split_and!.
  - apply remove_first_notin.
  - apply remove_first_split.
  - intros f Hf. unfold Client_Leave. rewrite (deref_Some _ _ _ Hrm).
    cbn [mbind Result_bind]. by rewrite Hf.
  - intros Hf. unfold Client_Leave. rewrite (deref_Some _ _ _ Hrm).
    cbn [mbind Result_bind]. by rewrite Hf.
Qed.

Lemma Client_Leave_spec_witness :
  Client_Leave demo_app 0 0 (mkState lobby_world [])
  = Ok (mkState (set_room 0 (mkRoom "lobby" [] None None) lobby_world) []).
Proof.
  exact (proj2 (proj2 (proj2
           (Client_Leave_spec demo_app 0 0 (mkRoom "lobby" [0] None None)
              (mkState lobby_world []) eq_refl))) eq_refl).
Defined.

(** ** The end of a connection *)

(** C2, as stated, fails: after the failed read of client 0 the room
    still has it as a member, and a broadcast of the room still goes
    through it. *)
Lemma wsReader_leaves_room_membership :
  wsReader demo_app 0 [ReadFailed TransportError] (mkState lobby_world [])
    = Ok (Terminated, mkState lobby_world_disconnected []) ∧
  clients <$> room_heap lobby_world_disconnected !! 0 = Some [0] ∧
  Room_Emit 0 "ping" (JObj ∅) lobby_world_disconnected = Ok lobby_world_disconnected.
Proof. vm_compute. done. Qed.

(** C2, amended.  On a failed read the receive loop removes the first
    entry equal to the client from the live set of the hub (so the
    client is no longer in it when it was in it once), closes its
    connection, calls the disconnected hook and ends.  Before the hook
    runs, the clients, the rooms and the memberships of the rooms are
    as they were, and every [Emit] on the client fails with a transport
    error and writes nothing. *)
Theorem wsReader_read_failure (app : Application) (client : ptr) (cl : Client)
  (cn : Conn) (err : error) (rest : list Inbound) (s : State) :
  client_heap (world s) !! client = Some cl →
  conn_heap (world s) !! socket cl = Some cn →
  let w := world s in
  let w1 := set_conn (socket cl) (Conn_Close cn)
              (set_server (set_Clients (remove_first client (Clients (server w)))
                             (server w)) w) in
  wsReader app client (ReadFailed err :: rest) s =
    Ok (Terminated,
        call_hook_if_set app (disconnectedHandler (server w)) client (set_world w1 s)) ∧
  (NoDup (Clients (server w)) → client ∉ Clients (server w1)) ∧
  client_heap w1 = client_heap w ∧
  room_heap w1 = room_heap w ∧
  Rooms (server w1) = Rooms (server w) ∧
  (∀ e d, Client_Emit client e d w1 = Ok (Some TransportError, w1)).
Proof.
  intros Hcl Hcn w w1. split_and!.
  - cbn [wsReader]. rewrite (deref_Some _ _ _ Hcl). cbn [mbind Result_bind].
    cbn [set_server conn_heap]. rewrite (deref_Some _ _ _ Hcn).
    cbn [mbind Result_bind]. reflexivity.
  - intros Hnd. cbn. by apply remove_first_NoDup.
  - reflexivity.
  - reflexivity.
  - reflexivity.
  - intros e d. eapply Client_Emit_closed.
    + cbn. exact Hcl.
    + cbn. apply lookup_insert_eq.
    + reflexivity.
Qed.

Lemma wsReader_read_failure_witness :
  Client_Emit 0 "ping" (JObj ∅) lobby_world_disconnected
  = Ok (Some TransportError, lobby_world_disconnected).
Proof.
  exact (proj2 (proj2 (proj2 (proj2 (proj2
           (wsReader_read_failure demo_app 0 (mkClient "c0" ∅ 0) (mkConn false [])
              TransportError [] (mkState lobby_world []) eq_refl eq_refl)))))
           "ping" (JObj ∅)).
Defined.

(** ** Accepting a connection *)

(** C1, which the code does not do.  [Handle] creates the connection
    with no frame on it and writes none: the connections the connected
    hook finds are the ones the pre-connect hook left.  On a hub whose
    connected hook binds a listener to x, the accepted connection
    carries no frame after [Handle], and the frame x then calls the
    listener while the connection still carries none: no handshake was
    delivered before a listener of the application ran. *)
Theorem Handle_writes_no_frame :
  (∀ app uuid s,
     let conn := fresh (dom (conn_heap (world s))) in
     let s2 := call_hook_if_set app (preConnectHandler (server (world s))) conn
                 (set_world (set_conn conn (mkConn false []) (world s)) s) in
     let client := fresh (dom (client_heap (world s2))) in
     let w3 := set_client client (createClient uuid conn) (world s2) in
     let w4 := set_server (set_Clients (Clients (server w3) ++ [client]) (server w3)) w3 in
     Handle app None uuid s =
       (Some client,
        call_hook_if_set app (connectedHandler (server w4)) client (set_world w4 s2)) ∧
     conn_heap w4 = conn_heap (world s2)) ∧
  (Handle demo_app None "u1" (mkState accept_world [])).1 = Some 0 ∧
  written <$>
    conn_heap (world (Handle demo_app None "u1" (mkState accept_world [])).2) !! 0
    = Some [] ∧
  ∃ s2,
    wsReader demo_app 0 [Decoded frame_x]
      (Handle demo_app None "u1" (mkState accept_world [])).2 = Ok (Reading, s2) ∧
    trace s2 = [HookCall 10 0; ListenerCall 0 0 ∅] ∧
    written <$> conn_heap (world s2) !! 0 = Some [].
Proof.
  split_and!.
  - intros app uuid s. cbn. done.
  - vm_compute. reflexivity.
  - vm_compute. reflexivity.
  - eexists. split_and!.
    + vm_compute. reflexivity.
    + reflexivity.
    + vm_compute. reflexivity.
Qed.

(** ** One-shot listeners *)


(** * Properties of the client *)

(** ** The registry under [on], [off] and [once] *)

Lemma delete_split {A} (l : list A) i x :
  l !! i = Some x → ∃ l1 l2, l = l1 ++ x :: l2 ∧ delete i l = l1 ++ l2 ∧ length l1 = i.
Proof.
  intros Hi. exists (take i l), (drop (S i) l). split_and!.
  - by rewrite take_drop_middle.
  - apply delete_take_drop.
  - rewrite length_take. apply lookup_lt_Some in Hi. lia.
Qed.

Lemma indexOf_Some arr h i :
  indexOf arr h = Some i →
  ∃ l1 l2, arr = l1 ++ h :: l2 ∧ delete i arr = l1 ++ l2 ∧ (h ∉ l1).
Proof.
  unfold indexOf. intros Hf.
  destruct (list_find (λ x, x = h) arr) as [[j x]|] eqn:Hfind; [|done].
  cbn in Hf. injection Hf as ->.
  apply list_find_Some in Hfind as (Hl & -> & Hmin).
  destruct (delete_split arr i h Hl) as (l1 & l2 & Harr & Hdel & Hlen).
  exists l1, l2. split_and!; [done|done|].
  intros Hin. apply list_elem_of_lookup in Hin as [j Hj].
  assert (j < i) by (apply lookup_lt_Some in Hj; lia).
  apply (Hmin j h); [|done|done].
  rewrite Harr. by rewrite lookup_app_l by lia.
Qed.

Lemma indexOf_None arr h : indexOf arr h = None → h ∉ arr.
Proof.
  unfold indexOf. intros Hf.
  destruct (list_find (λ x, x = h) arr) as [[j x]|] eqn:Hfind; [done|].
  apply list_find_None in Hfind. rewrite Forall_forall in Hfind.
  intros Hin. by apply (Hfind h).
Qed.

(** What [off] does to the registry: it changes at most the array of the
    event, dropping the first occurrence of the handler. *)
Lemma off_handlers event h env :
  (off event h env = env ∧
     ∀ arr, _handlers (client env) !! event = Some arr → h ∉ arr) ∨
  ∃ l1 l2, _handlers (client env) !! event = Some (l1 ++ h :: l2) ∧ (h ∉ l1) ∧
    off event h env =
      with_client (set_handlers (<[event := l1 ++ l2]> (_handlers (client env)))
                    (client env)) env.
Proof.
  unfold off. destruct (_handlers (client env) !! event) as [arr|] eqn:Harr.
  - destruct (indexOf arr h) as [i|] eqn:Hi.
    + right. destruct (indexOf_Some arr h i Hi) as (l1 & l2 & -> & -> & Hl1).
      by exists l1, l2.
    + left. split; [done|]. intros arr' [= <-]. by apply indexOf_None.
  - left. split; [done|]. by intros arr' [=].
Qed.

Lemma ids_app l1 l2 : ids (l1 ++ l2) = ids l1 ++ ids l2.
Proof. apply omap_app. Qed.

Lemma elem_of_ids cid arr :
  cid ∈ ids arr ↔ ∃ e f, OnceHandler cid e f ∈ arr.
Proof.
  unfold ids. rewrite list_elem_of_omap. split.
  - intros ([g|c e f] & Hin & Hc); [done|]. injection Hc as ->. eauto.
  - intros (e & f & Hin). by exists (OnceHandler cid e f).
Qed.

(** Removing entries keeps the invariant. *)
Lemma Inv_shrink r env hs' :
  Inv r env →
  (∀ e arr', hs' !! e = Some arr' →
     ∃ arr, _handlers (client env) !! e = Some arr ∧ arr' `sublist_of` arr) →
  Inv r (with_client (set_handlers hs' (client env)) env).
Proof.
  intros [Hs Hb Ht Hn Hfb Hfg Hfn] Hsub. split; cbn.
  - done.
  - intros e arr' cid e' f Harr' Hin.
    destruct (Hsub e arr' Harr') as (arr & Harr & Hsl).
    eapply Hb; [done|]. by eapply elem_of_sublist.
  - intros h1 h2 cid (e1 & a1 & Ha1 & Hin1) (e2 & a2 & Ha2 & Hin2) Hc1 Hc2.
    cbn in Ha1, Ha2.
    destruct (Hsub e1 a1 Ha1) as (b1 & Hb1 & Hsl1).
    destruct (Hsub e2 a2 Ha2) as (b2 & Hb2 & Hsl2).
    apply (Ht h1 h2 cid); [| |done|done].
    + exists e1, b1. split; [done|]. by eapply elem_of_sublist.
    + exists e2, b2. split; [done|]. by eapply elem_of_sublist.
  - intros e arr' Harr'.
    destruct (Hsub e arr' Harr') as (arr & Harr & Hsl).
    apply (sublist_NoDup (ids arr') (ids arr)); [by eapply Hn|].
    unfold ids. clear -Hsl. induction Hsl as [|x l1 l2 Hsl IH|x l1 l2 Hsl IH]; cbn.
    + constructor.
    + destruct (once_cid x); [by constructor|done].
    + destruct (once_cid x); [by constructor|done].
  - done.
  - intros cid Hf Hr e arr' Harr'.
    destruct (Hsub e arr' Harr') as (arr & Harr & Hsl).
    intros Hin. apply (Hfg cid Hf Hr e arr Harr).
    apply elem_of_ids in Hin as (e' & f & Hin). apply elem_of_ids.
    exists e', f. by eapply elem_of_sublist.
  - done.
Qed.

Lemma Inv_off r env event h : Inv r env → Inv r (off event h env).
Proof.
  intros HI. destruct (off_handlers event h env) as [[-> _]|(l1 & l2 & Harr & Hl1 & ->)];
    [done|].
  apply Inv_shrink; [done|]. intros e arr' He.
  destruct (decide (e = event)) as [->|Hne].
  - rewrite lookup_insert_eq in He. injection He as <-.
    eexists. split; [done|]. apply sublist_app; [done|]. by apply sublist_cons.
  - rewrite lookup_insert_ne in He by done. by exists arr'.
Qed.

Lemma on_handlers event h env e :
  _handlers (client (on event h env)) !! e =
    if decide (e = event) then Some (array_of event env ++ [h])
    else _handlers (client env) !! e.
Proof.
  unfold on, array_of. cbn. case_decide as He.
  - subst e. by rewrite lookup_insert_eq.
  - by rewrite lookup_insert_ne.
Qed.

Lemma elem_of_array_of event env h :
  h ∈ array_of event env ↔ ∃ arr, _handlers (client env) !! event = Some arr ∧ h ∈ arr.
Proof.
  unfold array_of. destruct (_handlers (client env) !! event) as [arr|].
  - split; [eauto|]. by intros (arr' & [= <-] & Hin).
  - split; [by intros ?%elem_of_nil|]. by intros (arr' & [=] & _).
Qed.

Lemma registered_on event h env h' :
  registered h' (on event h env) ↔ registered h' env ∨ h' = h.
Proof.
  unfold registered. split.
  - intros (e & arr & Harr & Hin). rewrite on_handlers in Harr.
    case_decide as He.
    + subst e. injection Harr as <-. apply elem_of_app in Hin as [Hin|Hin].
      * left. apply elem_of_array_of in Hin as (arr & Harr & Hin). eauto.
      * right. by apply list_elem_of_singleton in Hin.
    + left. eauto.
  - intros [(e & arr & Harr & Hin)| ->].
    + destruct (decide (e = event)) as [->|He].
      * exists event, (array_of event env ++ [h]). split.
        -- rewrite on_handlers. by rewrite decide_True.
        -- apply elem_of_app. left. apply elem_of_array_of. eauto.
      * exists e, arr. split; [|done]. rewrite on_handlers. by rewrite decide_False.
    + exists event, (array_of event env ++ [h]). split.
      * rewrite on_handlers. by rewrite decide_True.
      * apply elem_of_app. right. by apply list_elem_of_singleton.
Qed.

Lemma ids_array_of_NoDup r event env : Inv r env → NoDup (ids (array_of event env)).
Proof.
  intros HI. unfold array_of.
  destruct (_handlers (client env) !! event) as [arr|] eqn:Harr.
  - by eapply inv_nodup.
  - constructor.
Qed.

Lemma Inv_on r env event h :
  Inv r env → fresh_for event h env → Inv r (on event h env).
Proof.
  intros HI Hfresh. split.
  - cbn. by destruct HI.
  - intros e arr cid e' f Harr Hin. rewrite on_handlers in Harr.
    assert (closures (on event h env) = closures env) as -> by done.
    case_decide as He.
    + subst e. injection Harr as <-. apply elem_of_app in Hin as [Hin|Hin].
      * apply elem_of_array_of in Hin as (arr & Harr & Hin).
        by eapply inv_bound.
      * apply list_elem_of_singleton in Hin. subst h.
        destruct Hfresh as (-> & Hlt & _). done.
    + by eapply inv_bound.
  - intros h1 h2 cid Hr1 Hr2 Hc1 Hc2.
    apply registered_on in Hr1, Hr2.
    destruct Hr1 as [Hr1| ->], Hr2 as [Hr2| ->]; [by eapply inv_term| | |done].
    + exfalso. destruct h as [g|c e' g]; [done|]. injection Hc2 as ->.
      destruct Hfresh as (_ & _ & _ & Hnew).
      destruct Hr1 as (e1 & a1 & Ha1 & Hin1).
      apply (Hnew e1 a1 Ha1). apply elem_of_ids.
      destruct h1 as [|c1 e1' g1]; [done|]. injection Hc1 as ->. eauto.
    + exfalso. destruct h as [g|c e' g]; [done|]. injection Hc1 as ->.
      destruct Hfresh as (_ & _ & _ & Hnew).
      destruct Hr2 as (e1 & a1 & Ha1 & Hin1).
      apply (Hnew e1 a1 Ha1). apply elem_of_ids.
      destruct h2 as [|c1 e1' g1]; [done|]. injection Hc2 as ->. eauto.
  - intros e arr Harr. rewrite on_handlers in Harr. case_decide as He.
    + subst e. injection Harr as <-. rewrite ids_app. apply NoDup_app. split_and!.
      * by eapply ids_array_of_NoDup.
      * intros cid Hin Hin2. destruct h as [g|c e' g]; cbn in Hin2.
        { by apply elem_of_nil in Hin2. }
        apply list_elem_of_singleton in Hin2. subst c.
        destruct Hfresh as (_ & _ & _ & Hnew).
        apply elem_of_ids in Hin as (e1 & f1 & Hin).
        apply elem_of_array_of in Hin as (arr & Harr & Hin).
        apply (Hnew event arr Harr). apply elem_of_ids. eauto.
      * destruct h; cbn; [constructor|]. apply NoDup_singleton.
    + by eapply inv_nodup.
  - intros cid Hf. by apply (inv_fired_bound _ _ HI).
  - intros cid Hf Hr e arr Harr. rewrite on_handlers in Harr.
    assert (cid ∈ fired env) as Hf' by done.
    case_decide as He.
    + subst e. injection Harr as <-. rewrite ids_app. intros Hin.
      apply elem_of_app in Hin as [Hin|Hin].
      * apply elem_of_ids in Hin as (e1 & f1 & Hin).
        apply elem_of_array_of in Hin as (arr & Harr & Hin).
        apply (inv_fired_gone _ _ HI cid Hf' Hr event arr Harr).
        apply elem_of_ids. eauto.
      * destruct h as [g|c e' g]; cbn in Hin.
        { by apply elem_of_nil in Hin. }
        apply list_elem_of_singleton in Hin. subst c.
        by destruct Hfresh as (_ & _ & Hnf & _).
    + by eapply (inv_fired_gone _ _ HI).
  - by destruct HI.
Qed.

Lemma Inv_once r env event f : Inv r env → Inv r (once event f env).
Proof.
  intros HI. unfold once. apply Inv_on.
  - destruct HI as [Hs Hb Ht Hn Hfb Hfg Hfn]. split; cbn; try done.
    + intros e arr cid e' g Harr Hin. destruct (Hb e arr cid e' g Harr Hin). split; [done|lia].
    + intros cid Hf. specialize (Hfb cid Hf). unfold fired in *. cbn in *. lia.
  - cbn. split_and!; [done|lia| |].
    + intros Hf. apply (inv_fired_bound _ _ HI) in Hf. lia.
    + intros e arr Harr Hin. apply elem_of_ids in Hin as (e' & g & Hin).
      destruct (inv_bound _ _ HI e arr _ e' g Harr Hin). lia.
Qed.

(** ** The calls of the application *)

Lemma registered_off_user event f env W :
  once_cid W ≠ None → registered W env → registered W (off event (UserHandler f) env).
Proof.
  intros HW (e & arr & Harr & Hin).
  destruct (off_handlers event (UserHandler f) env)
    as [[-> _]|(l1 & l2 & Hev & Hl1 & ->)]; [by exists e, arr|].
  destruct (decide (e = event)) as [->|Hne].
  - exists event, (l1 ++ l2). split; [cbn; apply lookup_insert_eq|].
    rewrite Hev in Harr. injection Harr as <-.
    rewrite elem_of_app in Hin. rewrite elem_of_app.
    destruct Hin as [Hin|Hin]; [by left|].
    apply elem_of_cons in Hin as [->|Hin]; [done|by right].
  - exists e, arr. split; [|done]. cbn. by rewrite lookup_insert_ne.
Qed.

Lemma preserved_refl r env : preserved r env env.
Proof. by split. Qed.

Lemma preserved_trans r env1 env2 env3 :
  preserved r env1 env2 → preserved r env2 env3 → preserved r env1 env3.
Proof.
  intros [] []. split; try congruence; eauto.
Qed.

Lemma Inv_same_registry r env env' :
  _handlers (client env') = _handlers (client env) →
  closures env' = closures env →
  invocations env' = invocations env →
  (_socket (client env) ≠ None → _socket (client env') ≠ None) →
  Inv r env → Inv r env'.
Proof.
  intros Hh Hc Hi Hs [Hs0 Hb Ht Hn Hfb Hfg Hfn].
  unfold fired, registered in *. split; unfold fired, registered;
    rewrite ?Hh, ?Hc, ?Hi; auto.
Qed.

Lemma exec_call_preserved r c env :
  ∃ env', (exec_call c env = Done env' ∨ ∃ msg, exec_call c env = Thrown msg env') ∧
          preserved r env env' ∧
          (_socket (client env) ≠ None → exec_call c env = Done env').
Proof.
  destruct c as [event data|event f|event f|event f|f|f|f]; cbn.
  - unfold emit. destruct (_socket (client env)) as [ws|] eqn:Hws.
    + eexists. split; [by left|]. split; [|done].
      split; try done. apply Inv_same_registry; done.
    + exists env. split; [right; eauto|]. split; [apply preserved_refl|done].
  - eexists. split; [by left|]. split; [|done]. split; try done.
    + intros HI. by apply Inv_on.
    + intros W HW Hr. apply registered_on. by left.
  - eexists. split; [by left|]. split; [|done]. split; try done.
    + apply Inv_off.
    + unfold off. destruct (_handlers (client env) !! event); [|done].
      by destruct (indexOf _ _).
    + unfold off. destruct (_handlers (client env) !! event); [|done].
      by destruct (indexOf _ _).
    + unfold off. destruct (_handlers (client env) !! event); [|done].
      by destruct (indexOf _ _).
    + unfold off. destruct (_handlers (client env) !! event); [|done].
      by destruct (indexOf _ _).
    + unfold off. destruct (_handlers (client env) !! event); [|done].
      by destruct (indexOf _ _).
    + unfold off. destruct (_handlers (client env) !! event); [|done].
      by destruct (indexOf _ _).
    + intros W. apply registered_off_user.
  - eexists. split; [by left|]. split; [|done]. split; try done.
    + apply Inv_once.
    + intros W HW Hr. unfold once. apply registered_on. by left.
  - eexists. split; [by left|]. split; [|done]. split; try done.
    apply Inv_same_registry; done.
  - eexists. split; [by left|]. split; [|done]. split; try done.
    apply Inv_same_registry; done.
  - eexists. split; [by left|]. split; [|done]. split; try done.
    apply Inv_same_registry; done.
Qed.

Lemma exec_calls_preserved r cs env :
  ∃ env', (exec_calls cs env = Done env' ∨ ∃ msg, exec_calls cs env = Thrown msg env') ∧
          preserved r env env' ∧
          (_socket (client env) ≠ None → exec_calls cs env = Done env').
Proof.
  revert env. induction cs as [|c cs IH]; intros env; cbn.
  - exists env. split; [by left|]. split; [apply preserved_refl|done].
  - destruct (exec_call_preserved r c env) as (env1 & Hrun & Hpr & Hdone).
    destruct Hrun as [Hrun|[msg Hrun]].
    + rewrite Hrun. cbn.
      destruct (IH env1) as (env2 & Hrun2 & Hpr2 & Hdone2).
      exists env2. split; [done|]. split; [by eapply preserved_trans|].
      intros Hs. apply Hdone2. by apply (pr_socket _ _ _ Hpr).
    + exists env1. rewrite Hrun. cbn. split; [right; eauto|]. split; [done|].
      intros Hs. by rewrite Hdone in Hrun.
Qed.

(** ** Calling a handler *)







Section ClientInvariant.
Context (app : UserCode).




End ClientInvariant.

(** ** Runs of the event loop *)

Section ClientRun.
Context (app : UserCode).







End ClientRun.

(** ** The identity of the client *)

Section ClientIdentity.
Context (app : UserCode).




End ClientIdentity.



(** ** A one-shot handler alone under its event *)



(** * One-shot handlers on both sides *)



(** * Further properties of the server *)

(** ** Bindings, acknowledgement ids, membership *)

Lemma set_client_same c cl w :
  client_heap w !! c = Some cl → set_client c cl w = w.
Proof.
  intros H. destruct w as [sv ch rh kh]. unfold set_client. cbn in *. f_equal.
  by apply insert_id.
Qed.

Lemma set_Events_same cl : set_Events (Events cl) cl = cl.
Proof. by destruct cl. Qed.

Lemma set_client_twice c cl1 cl2 w :
  set_client c cl2 (set_client c cl1 w) = set_client c cl2 w.
Proof. unfold set_client. cbn. f_equal. apply insert_insert_eq. Qed.

(** X1.  A client holds one listener per event name.  Binding a name
    with [On] or [Once] after it was bound with [On] or [Once] leaves
    the client as the second binding alone would: the first listener is
    gone, whichever of the two methods bound it.  After the binding the
    name maps to the new listener and every other name is bound as it
    was. *)
Theorem Client_On_Once_overwrite (c : ptr) (cl : Client) (e : string)
  (l1 l2 : EventListener) (w : World) :
  client_heap w !! c = Some cl →
  bind_twice Client_On Client_On c e l1 l2 w = Client_On c e l2 w ∧
  bind_twice Client_Once Client_On c e l1 l2 w = Client_On c e l2 w ∧
  bind_twice Client_On Client_Once c e l1 l2 w = Client_Once c e l2 w ∧
  bind_twice Client_Once Client_Once c e l1 l2 w = Client_Once c e l2 w ∧
  (∀ w2 cl2, Client_On c e l2 w = Ok w2 → client_heap w2 !! c = Some cl2 →
     Events cl2 !! e = Some l2 ∧ ∀ e', e' ≠ e → Events cl2 !! e' = Events cl !! e').
Proof.
  intros Hcl.
  assert (∀ la lb : EventListener,
    set_client c (set_Events (<[e := lb]> (Events (set_Events (<[e := la]> (Events cl)) cl)))
                    (set_Events (<[e := la]> (Events cl)) cl))
      (set_client c (set_Events (<[e := la]> (Events cl)) cl) w)
    = set_client c (set_Events (<[e := lb]> (Events cl)) cl) w) as Hover.
  { intros la lb. rewrite set_client_twice. unfold set_Events. cbn.
    by rewrite insert_insert_eq. }
  unfold bind_twice, Client_On, Client_Once.
  rewrite (deref_Some _ _ _ Hcl). cbn [mbind Result_bind].
  unfold deref. cbn [client_heap set_client]. rewrite !lookup_insert_eq.
  cbn [mbind Result_bind]. rewrite !Hover. split_and!; try done.
  intros w2 cl2 [= <-]. cbn. rewrite lookup_insert_eq. intros [= <-]. cbn.
  split; [apply lookup_insert_eq|]. intros e' Hne. by rewrite lookup_insert_ne.
Qed.

Lemma Client_On_Once_overwrite_witness :
  bind_twice Client_Once Client_On 0 "x" (UserListener 1) (UserListener 0) lobby_world
  = Client_On 0 "x" (UserListener 0) lobby_world.
Proof.
  exact (proj1 (proj2 (Client_On_Once_overwrite 0 (mkClient "c0" ∅ 0) "x"
                         (UserListener 1) (UserListener 0) lobby_world eq_refl))).
Defined.

(** X2.  [Off] on a name that is not bound changes nothing; a binding
    by [On] or [Once] of a name that was not bound, followed by [Off],
    gives the world back; [Off] twice is [Off] once; and after [Off] a
    frame for the name is dropped: the dispatch ends normally in the
    same state, with no call of user code and nothing written. *)
Theorem Client_Off_unbinds (app : Application) (c : ptr) (cl : Client) (e : string)
  (w : World) :
  client_heap w !! c = Some cl →
  (Events cl !! e = None → Client_Off c e w = Ok w) ∧
  (Events cl !! e = None →
     ∀ l, (w1 ← Client_On c e l w; Client_Off c e w1) = Ok w ∧
          (w1 ← Client_Once c e l w; Client_Off c e w1) = Ok w) ∧
  (w1 ← Client_Off c e w; Client_Off c e w1) = Client_Off c e w ∧
  (∀ w1 data d tr, Client_Off c e w = Ok w1 →
     data !! "event" = Some (JStr e) → data !! "data" = Some (JObj d) →
     ackId_well_typed data →
     handleClientData app c data (mkState w1 tr) = Ok (mkState w1 tr)).
Proof.
  intros Hcl.
  assert (Client_Off c e w = Ok (set_client c (set_Events (delete e (Events cl)) cl) w))
    as Hoff.
  { unfold Client_Off. by rewrite (deref_Some _ _ _ Hcl). }
  assert (Events cl !! e = None → set_client c (set_Events (delete e (Events cl)) cl) w = w)
    as Hid.
  { intros Hnone. rewrite delete_id by done. rewrite set_Events_same.
    by apply set_client_same. }
  assert (∀ l : EventListener, Events cl !! e = None →
    Client_Off c e (set_client c (set_Events (<[e := l]> (Events cl)) cl) w) = Ok w)
    as Hround.
  { intros l Hnone. unfold Client_Off, deref. cbn [client_heap set_client].
    rewrite lookup_insert_eq. cbn [mbind Result_bind]. rewrite set_client_twice.
    unfold set_Events at 1. cbn [Id Events socket set_Events].
    rewrite delete_insert_eq. f_equal.
    rewrite <- (Hid Hnone) at 2. by rewrite (delete_id _ _ Hnone). }
  split_and!.
  - intros Hnone. by rewrite Hoff, Hid.
  - intros Hnone l. unfold Client_On, Client_Once. rewrite (deref_Some _ _ _ Hcl).
    cbn [mbind Result_bind]. by rewrite !Hround.
  - rewrite Hoff. cbn [mbind Result_bind]. unfold Client_Off, deref.
    cbn [client_heap set_client]. rewrite lookup_insert_eq. cbn [mbind Result_bind].
    rewrite set_client_twice. unfold set_Events. cbn.
    by rewrite delete_delete_eq.
  - intros w1 data d tr Hw1 He Hd Hack. rewrite Hoff in Hw1. injection Hw1 as <-.
    edestruct (handleClientData_unfold app c data e d) as (a & _ & ->); [done|done| |done|].
    + cbn. apply lookup_insert_eq.
    + cbn. by rewrite lookup_delete_eq.
Qed.

Lemma Client_Off_unbinds_witness :
  (w1 ← Client_On 0 "x" (UserListener 0) lobby_world; Client_Off 0 "x" w1) = Ok lobby_world.
Proof.
  exact (proj1 (proj1 (proj2 (Client_Off_unbinds demo_app 0 (mkClient "c0" ∅ 0) "x"
                                 lobby_world eq_refl)) eq_refl (UserListener 0))).
Defined.

(** X3.  A frame whose [ackId] is present, not null and not a string
    makes the unchecked assertion [data["ackId"].(string)] panic: the
    dispatch panics whatever [event] and [data] are, and so does the
    receive loop that reads the frame, before any frame behind it. *)
Theorem handleClientData_ackId_not_a_string (app : Application) (client : ptr)
  (data : EventData) (v : JVal) (s : State) :
  data !! "ackId" = Some v →
  v ≠ JNull → (∀ a, v ≠ JStr a) →
  handleClientData app client data s = Panic ∧
  ∀ rest, wsReader app client (Decoded data :: rest) s = Panic.
Proof.
  intros Hv Hnull Hstr.
  assert (handleClientData app client data s = Panic) as Hp.
  { unfold handleClientData.
    destruct (assert_string (data !! "event")) as [e|]; [|done].
    destruct (assert_map (data !! "data")) as [d|]; [|done].
    cbn [mbind Result_bind]. rewrite Hv.
    destruct v as [| | |a| |]; try done. by destruct (Hstr a). }
  split; [done|]. intros rest. cbn [wsReader]. by rewrite Hp.
Qed.

Lemma handleClientData_ackId_not_a_string_witness :
  handleClientData demo_app 0
    {[ "event" := JStr "x"; "data" := JObj ∅; "ackId" := JNum 7 ]}
    (mkState lobby_world []) = Panic.
Proof.
  refine (proj1 (handleClientData_ackId_not_a_string demo_app 0 _ (JNum 7)
                   (mkState lobby_world []) _ _ _)); [reflexivity|discriminate|discriminate].
Defined.

Lemma remove_first_nil (p : ptr) : remove_first p [] = [].
Proof. done. Qed.

Lemma remove_first_cons (p x : ptr) (l : list ptr) :
  remove_first p (x :: l) = if decide (x = p) then l else x :: remove_first p l.
Proof.
  unfold remove_first. cbn [list_find]. case_decide as Hx; [done|].
  destruct (list_find (λ y, y = p) l) as [[i y]|]; done.
Qed.

Lemma remove_first_app_new (p : ptr) (l : list ptr) :
  p ∉ l → remove_first p (l ++ [p]) = l.
Proof.
  induction l as [|x l IH]; intros Hp; cbn [app].
  - rewrite remove_first_cons. by rewrite decide_True.
  - rewrite remove_first_cons. apply not_elem_of_cons in Hp as [Hne Hp].
    rewrite decide_False by done. by rewrite IH.
Qed.

Lemma remove_first_app_keeps (p : ptr) (l k : list ptr) :
  p ∈ l → remove_first p (l ++ k) = remove_first p l ++ k.
Proof.
  induction l as [|x l IH]; intros Hp; [by apply elem_of_nil in Hp|].
  cbn [app]. rewrite !remove_first_cons. case_decide; [done|].
  apply elem_of_cons in Hp as [->|Hp]; [done|]. cbn [app]. by rewrite IH.
Qed.

Lemma set_room_same r rm w :
  room_heap w !! r = Some rm → set_room r rm w = w.
Proof.
  intros H. destruct w as [sv ch rh kh]. unfold set_room. cbn in *. f_equal.
  by apply insert_id.
Qed.

Lemma set_room_twice r rm1 rm2 w :
  set_room r rm2 (set_room r rm1 w) = set_room r rm2 w.
Proof. unfold set_room. cbn. f_equal. apply insert_insert_eq. Qed.

(** X4.  [Join] appends without looking for the client, so in a room
    without callbacks: one [Join] adds one entry at the end; two add
    two; a [Leave] after two [Join]s removes one entry and the client
    is still a member; and for a client that was not a member, [Join]
    followed by [Leave] gives the state back. *)
Theorem Client_Join_no_dedup (app : Application) (c r : ptr) (rm : Room) (s : State) :
  room_heap (world s) !! r = Some rm →
  joinedHandler rm = None → leftHandler rm = None →
  let members l := set_world (set_room r (set_clients l rm) (world s)) s in
  Client_Join app c r s = Ok (members (clients rm ++ [c])) ∧
  (s1 ← Client_Join app c r s; Client_Join app c r s1)
    = Ok (members (clients rm ++ [c; c])) ∧
  (s1 ← Client_Join app c r s; s2 ← Client_Join app c r s1; Client_Leave app c r s2)
    = Ok (members (remove_first c (clients rm ++ [c; c]))) ∧
  c ∈ remove_first c (clients rm ++ [c; c]) ∧
  ((c ∉ clients rm) →
     (s1 ← Client_Join app c r s; Client_Leave app c r s1) = Ok s).
Proof.
  intros Hrm Hj Hl members.
  assert (∀ l, room_heap (world (members l)) !! r = Some (set_clients l rm)) as Hlook.
  { intros l. cbn. apply lookup_insert_eq. }
  assert (∀ l, Client_Join app c r (members l) = Ok (members (l ++ [c]))) as Hjoin.
  { intros l. unfold Client_Join. rewrite (deref_Some _ _ _ (Hlook l)).
    cbn [mbind Result_bind joinedHandler set_clients]. rewrite Hj.
    cbn [call_hook_if_set]. unfold members. cbn [world set_world clients].
    by rewrite set_room_twice. }
  assert (∀ l, Client_Leave app c r (members l) = Ok (members (remove_first c l)))
    as Hleave.
  { intros l. unfold Client_Leave. rewrite (deref_Some _ _ _ (Hlook l)).
    cbn [mbind Result_bind leftHandler set_clients]. rewrite Hl.
    cbn [call_hook_if_set]. unfold members. cbn [world set_world clients].
    by rewrite set_room_twice. }
  assert (Client_Join app c r s = Ok (members (clients rm ++ [c]))) as Hfirst.
  { unfold Client_Join. rewrite (deref_Some _ _ _ Hrm).
    cbn [mbind Result_bind]. by rewrite Hj. }
  split_and!.
  - done.
  - rewrite Hfirst. cbn [mbind Result_bind]. rewrite Hjoin. by rewrite <- app_assoc.
  - rewrite Hfirst. cbn [mbind Result_bind]. rewrite Hjoin. cbn [mbind Result_bind].
    rewrite Hleave. by rewrite <- app_assoc.
  - destruct (decide (c ∈ clients rm)) as [Hin|Hin].
    + rewrite remove_first_app_keeps by done. apply elem_of_app. right. by left.
    + replace (clients rm ++ [c; c]) with ((clients rm ++ [c]) ++ [c])
        by (by rewrite <- app_assoc).
      rewrite remove_first_app_keeps by (apply elem_of_app; right; by left).
      apply elem_of_app. right. by left.
  - intros Hnot. rewrite Hfirst. cbn [mbind Result_bind]. rewrite Hleave.
    rewrite remove_first_app_new by done. unfold members.
    destruct rm as [i l j lf]. cbn [set_clients clients Room_Id joinedHandler leftHandler].
    rewrite set_room_same by done. by destruct s.
Qed.

Lemma Client_Join_no_dedup_witness :
  (s1 ← Client_Join demo_app 0 0 (mkState lobby_world []);
   s2 ← Client_Join demo_app 0 0 s1; Client_Leave demo_app 0 0 s2)
  = Ok (mkState (set_room 0 (mkRoom "lobby" [0; 0] None None) lobby_world) []).
Proof.
  exact (proj1 (proj2 (proj2 (Client_Join_no_dedup demo_app 0 0
                                 (mkRoom "lobby" [0] None None) (mkState lobby_world [])
                                 eq_refl eq_refl eq_refl)))).
Defined.

(** ** Broadcasts *)

Lemma receive_zero f cn : receive 0 f cn = cn.
Proof.
  unfold receive. destruct cn as [[] wr]; cbn; [done|]. by rewrite app_nil_r.
Qed.

Lemma receive_receive m n f cn : receive n f (receive m f cn) = receive (m + n) f cn.
Proof.
  unfold receive. destruct cn as [[] wr]; cbn; [done|].
  by rewrite replicate_add, app_assoc.
Qed.

Lemma receive_one_open f cn :
  closed cn = false → receive 1 f cn = mkConn false (written cn ++ [f]).
Proof. unfold receive. by intros ->. Qed.

Lemma receive_closed n f cn : closed cn = true → receive n f cn = cn.
Proof. unfold receive. by intros ->. Qed.

Lemma entries_on_cons w k c l :
  entries_on w k (c :: l) =
    (if decide (socket <$> client_heap w !! c = Some k) then 1 else 0) + entries_on w k l.
Proof. unfold entries_on. rewrite filter_cons. by case_decide. Qed.

Lemma entries_on_singleton w k c :
  entries_on w k [c] =
    if decide (socket <$> client_heap w !! c = Some k) then 1 else 0.
Proof. rewrite entries_on_cons. unfold entries_on. cbn. lia. Qed.

Lemma entries_on_same_clients w w' k l :
  client_heap w' = client_heap w → entries_on w' k l = entries_on w k l.
Proof. unfold entries_on. by intros ->. Qed.

Lemma Client_Emit_delivers c e d w :
  all_connected w [c] →
  ∃ err w1, Client_Emit c e d w = Ok (err, w1) ∧ delivered [c] e d w w1.
Proof.
  intros Hc. destruct (Hc c) as (cl & cn & Hcl & Hcn); [by left|].
  unfold delivered. setoid_rewrite entries_on_singleton.
  rewrite Hcl. cbn [fmap option_fmap option_map].
  destruct (closed cn) eqn:Hclosed.
  - exists (Some TransportError), w. split; [by eapply Client_Emit_closed|].
    split_and!; try done. intros k. case_decide as Hk.
    + injection Hk as <-. rewrite Hcn. cbn. by rewrite receive_closed.
    + destruct (conn_heap w !! k); cbn; [|done]. by rewrite receive_zero.
  - eexists None, _. split; [by eapply Client_Emit_open|].
    split_and!; try done. intros k. cbn [conn_heap set_conn]. case_decide as Hk.
    + injection Hk as <-. rewrite lookup_insert_eq, Hcn. cbn.
      by rewrite receive_one_open.
    + rewrite lookup_insert_ne by congruence.
      destruct (conn_heap w !! k); cbn; [|done]. by rewrite receive_zero.
Qed.

Lemma all_connected_delivered l l' e d w w' :
  delivered l' e d w w' → all_connected w l → all_connected w' l.
Proof.
  intros (_ & Hch & _ & Hk) Hl c Hin. destruct (Hl c Hin) as (cl & cn & Hcl & Hcn).
  exists cl. rewrite Hch. rewrite Hk, Hcn. cbn. eauto.
Qed.

Lemma emit_all_delivers l e d w :
  all_connected w l → ∃ w', emit_all l e d w = Ok w' ∧ delivered l e d w w'.
Proof.
  revert w. induction l as [|c l IH]; intros w Hl.
  - exists w. split; [done|]. split_and!; try done. intros k.
    destruct (conn_heap w !! k); cbn; [|done]. by rewrite receive_zero.
  - destruct (Client_Emit_delivers c e d w) as (err & w1 & Hemit & Hd1).
    { intros c' Hc'. apply list_elem_of_singleton in Hc' as ->. apply Hl. by left. }
    destruct (IH w1) as (w' & Hrest & Hd2).
    { eapply all_connected_delivered; [done|]. intros c' Hc'. apply Hl. by right. }
    exists w'. split.
    { cbn [emit_all]. rewrite Hemit. cbn [mbind Result_bind]. done. }
    destruct Hd1 as (Hs1 & Hc1 & Hr1 & Hk1), Hd2 as (Hs2 & Hc2 & Hr2 & Hk2).
    split_and!; try congruence. intros k. rewrite Hk2, Hk1.
    rewrite (entries_on_same_clients _ _ _ _ Hc1).
    rewrite (entries_on_cons w k c l), (entries_on_singleton w k c).
    destruct (conn_heap w !! k); cbn; [|done]. by rewrite receive_receive.
Qed.

(** X5.  A broadcast to a room, and one to the whole hub, ends
    normally when every client of the list is in the heap with its
    connection; every open connection then carries, after what it
    carried, the frame [{event, data}] once per entry of the list that
    is a client on it, a closed connection carries what it carried, and
    the hub, the clients and the rooms are as before. *)
Theorem broadcast_delivers (r : ptr) (rm : Room) (e : string) (d : JVal) (w : World) :
  room_heap w !! r = Some rm →
  (all_connected w (clients rm) →
     ∃ w', Room_Emit r e d w = Ok w' ∧ delivered (clients rm) e d w w') ∧
  (all_connected w (Clients (server w)) →
     ∃ w', IgoServer_Emit e d w = Ok w' ∧ delivered (Clients (server w)) e d w w').
Proof.
  intros Hrm. split.
  - intros Hl. unfold Room_Emit. rewrite (deref_Some _ _ _ Hrm). cbn [mbind Result_bind].
    by apply emit_all_delivers.
  - intros Hl. by apply emit_all_delivers.
Qed.

Lemma emit_all_except_filter x l e d w :
  emit_all_except x l e d w = emit_all (filter (λ c, c ≠ x) l) e d w.
Proof.
  revert w. induction l as [|c l IH]; intros w; [done|].
  cbn [emit_all_except]. rewrite filter_cons. case_decide.
  - cbn [emit_all]. destruct (Client_Emit c e d w) as [[err w1]|]; [|done].
    cbn [mbind Result_bind]. apply IH.
  - apply IH.
Qed.

Lemma entries_on_none w k l :
  (∀ c, c ∈ l → socket <$> client_heap w !! c ≠ Some k) → entries_on w k l = 0.
Proof.
  intros Hl. induction l as [|c l IH]; [done|].
  rewrite entries_on_cons, decide_False by (apply Hl; by left).
  apply IH. intros c' Hc'. apply Hl. by right.
Qed.

Lemma filter_ne_notin (x : ptr) (l : list ptr) :
  x ∉ l → filter (λ c, c ≠ x) l = l.
Proof.
  induction l as [|c l IH]; intros Hx; [done|].
  apply not_elem_of_cons in Hx as [Hne Hx].
  rewrite filter_cons. rewrite decide_True by congruence. by rewrite IH.
Qed.

(** X6.  [EmitExcept] of a room or of the hub is the broadcast over
    the list without the entries equal to the excluded client (all of
    them, compared by address); excluding a client that is no member is
    the plain broadcast; and the connection of the excluded client is
    untouched when no other member is on that connection. *)
Theorem broadcast_except_skips (r x : ptr) (rm : Room) (e : string) (d : JVal)
  (w : World) :
  room_heap w !! r = Some rm →
  Room_EmitExcept r x e d w = emit_all (filter (λ c, c ≠ x) (clients rm)) e d w ∧
  IgoServer_EmitExcept x e d w =
    emit_all (filter (λ c, c ≠ x) (Clients (server w))) e d w ∧
  ((x ∉ clients rm) → Room_EmitExcept r x e d w = Room_Emit r e d w) ∧
  (all_connected w (clients rm) →
     ∃ w', Room_EmitExcept r x e d w = Ok w' ∧
       delivered (filter (λ c, c ≠ x) (clients rm)) e d w w' ∧
       ∀ clx, client_heap w !! x = Some clx →
         (∀ c cl, c ∈ clients rm → c ≠ x → client_heap w !! c = Some cl →
                  socket cl ≠ socket clx) →
         conn_heap w' !! socket clx = conn_heap w !! socket clx).
Proof.
  intros Hrm.
  assert (Room_EmitExcept r x e d w = emit_all (filter (λ c, c ≠ x) (clients rm)) e d w)
    as Heq.
  { unfold Room_EmitExcept. rewrite (deref_Some _ _ _ Hrm). cbn [mbind Result_bind].
    apply emit_all_except_filter. }
  split_and!.
  - done.
  - apply emit_all_except_filter.
  - intros Hx. rewrite Heq. unfold Room_Emit. rewrite (deref_Some _ _ _ Hrm).
    cbn [mbind Result_bind].
    by rewrite filter_ne_notin.
  - intros Hl. rewrite Heq.
    destruct (emit_all_delivers (filter (λ c, c ≠ x) (clients rm)) e d w)
      as (w' & Hrun & Hd).
    { intros c Hc. apply list_elem_of_filter in Hc as [_ Hc]. by apply Hl. }
    exists w'. split_and!; [done|done|].
    intros clx Hclx Hown. destruct Hd as (_ & _ & _ & Hk). rewrite Hk.
    rewrite entries_on_none.
    + destruct (conn_heap w !! socket clx); cbn; [|done]. by rewrite receive_zero.
    + intros c Hc Hsock. apply list_elem_of_filter in Hc as [Hne Hc].
      destruct (Hl c Hc) as (cl & cn & Hcl & _). rewrite Hcl in Hsock.
      cbn in Hsock. injection Hsock as Hsock.
      by apply (Hown c cl).
Qed.

Lemma broadcast_except_skips_witness :
  Room_EmitExcept 0 0 "ping" (JObj ∅) lobby_world = Ok lobby_world.
Proof.
  exact (proj1 (broadcast_except_skips 0 0 (mkRoom "lobby" [0] None None) "ping" (JObj ∅)
                  lobby_world eq_refl)).
Defined.

Lemma broadcast_delivers_witness :
  ∃ w', Room_Emit 0 "ping" (JObj ∅) lobby_world = Ok w' ∧
        delivered [0] "ping" (JObj ∅) lobby_world w'.
Proof.
  refine (proj1 (broadcast_delivers 0 (mkRoom "lobby" [0] None None) "ping" (JObj ∅)
                   lobby_world eq_refl) _).
  intros c Hc. apply list_elem_of_singleton in Hc as ->.
  exists (mkClient "c0" ∅ 0), (mkConn false []). by split.
Defined.

(** ** Rooms, connections and the receive loop *)

Lemma set_server_same w : set_server (server w) w = w.
Proof. by destruct w. Qed.

Lemma set_Rooms_same sv : set_Rooms (Rooms sv) sv = sv.
Proof. by destruct sv. Qed.

Lemma set_Clients_same sv : set_Clients (Clients sv) sv = sv.
Proof. by destruct sv. Qed.

Lemma Client_Emit_set_server sv c e d w :
  Client_Emit c e d (set_server sv w) =
    match Client_Emit c e d w with
    | Ok (err, w1) => Ok (err, set_server sv w1)
    | Panic => Panic
    end.
Proof.
  unfold Client_Emit. cbn [client_heap conn_heap set_server].
  destruct (deref (client_heap w) c) as [cl|]; [|done]. cbn [mbind Result_bind].
  destruct (deref (conn_heap w) (socket cl)) as [cn|]; [|done]. cbn [mbind Result_bind].
  by destruct (Conn_WriteJSON _ cn).
Qed.

Lemma emit_all_set_server sv l e d w :
  emit_all l e d (set_server sv w) =
    (w' ← emit_all l e d w; Ok (set_server sv w')).
Proof.
  revert w. induction l as [|c l IH]; intros w; [done|].
  cbn [emit_all]. rewrite Client_Emit_set_server.
  destruct (Client_Emit c e d w) as [[err w1]|]; [|done].
  cbn [mbind Result_bind]. apply IH.
Qed.

Lemma emit_all_server l e d w w' :
  emit_all l e d w = Ok w' → server w' = server w.
Proof.
  revert w. induction l as [|c l IH]; intros w; cbn [emit_all]; [by intros [= <-]|].
  unfold Client_Emit.
  destruct (deref (client_heap w) c) as [cl|]; [|done]. cbn [mbind Result_bind].
  destruct (deref (conn_heap w) (socket cl)) as [cn|]; [|done]. cbn [mbind Result_bind].
  destruct (Conn_WriteJSON _ cn) as [err cn']. cbn [mbind Result_bind].
  intros Hrest. by rewrite (IH _ Hrest).
Qed.

Lemma remove_first_app_notin (p : ptr) (l k : list ptr) :
  p ∉ l → remove_first p (l ++ k) = l ++ remove_first p k.
Proof.
  induction l as [|x l IH]; intros Hp; [done|]. cbn [app].
  apply not_elem_of_cons in Hp as [Hne Hp].
  rewrite remove_first_cons, decide_False by done. by rewrite IH.
Qed.

Lemma CreateRoom_fresh name w :
  rooms_allocated w → (CreateRoom name w).1 ∉ Rooms (server w).
Proof.
  intros Hall Hin. destruct (Hall _ Hin) as [rm Hrm].
  assert (room_heap w !! (CreateRoom name w).1 = None) as Hnone.
  { apply not_elem_of_dom. apply is_fresh. }
  congruence.
Qed.

(** X7.  [DeleteRoom] compares rooms by address and edits the list of
    the hub only.  A room that is not listed: nothing changes.  A list
    without duplicates: the room is no longer listed.  The room object
    survives: a broadcast to the deleted room reaches its members as
    before.  Creating a room and deleting it leaves the hub as it was,
    with the room object in the heap.  And of two rooms of one name,
    deleting the first makes [GetRoom] return the second. *)
Theorem DeleteRoom_by_reference (r : ptr) (w : World) :
  ((r ∉ Rooms (server w)) → DeleteRoom r w = w) ∧
  (NoDup (Rooms (server w)) → r ∉ Rooms (server (DeleteRoom r w))) ∧
  (∀ e d, Room_Emit r e d (DeleteRoom r w)
          = (w' ← Room_Emit r e d w; Ok (DeleteRoom r w'))) ∧
  (∀ name, rooms_allocated w →
     DeleteRoom (CreateRoom name w).1 (CreateRoom name w).2
     = set_room (CreateRoom name w).1 (mkRoom name [] None None) w) ∧
  (∀ name, GetRoom name w = Ok None →
     let r1 := (CreateRoom name w).1 in
     let w1 := (CreateRoom name w).2 in
     let r2 := (CreateRoom name w1).1 in
     let w2 := (CreateRoom name w1).2 in
     GetRoom name (DeleteRoom r1 w2) = Ok (Some r2)).
Proof.
  split_and!.
  - intros Hr. unfold DeleteRoom. rewrite remove_first_notin by done.
    by rewrite set_Rooms_same, set_server_same.
  - intros Hnd. cbn. by apply remove_first_NoDup.
  - intros e d. unfold DeleteRoom at 1. unfold Room_Emit.
    cbn [room_heap set_server].
    destruct (deref (room_heap w) r) as [rm|]; [|done]. cbn [mbind Result_bind].
    rewrite emit_all_set_server.
    destruct (emit_all (clients rm) e d w) as [w'|] eqn:Hrun; [|done].
    cbn [mbind Result_bind]. unfold DeleteRoom.
    by rewrite (emit_all_server _ _ _ _ _ Hrun).
  - intros name Hall. pose proof (CreateRoom_fresh name w Hall) as Hfresh.
    unfold DeleteRoom, CreateRoom in *. cbn in *.
    rewrite remove_first_app_new by done.
    destruct w as [[cs rs p1 p2 p3 p4] ch rh kh]. done.
  - intros name Hno r1 w1 r2 w2.
    assert (room_heap w !! r1 = None) as Hr1.
    { apply not_elem_of_dom. apply is_fresh. }
    assert (room_heap w1 !! r2 = None) as Hr2.
    { apply not_elem_of_dom. apply is_fresh. }
    assert (room_heap w1 !! r1 = Some (mkRoom name [] None None)) as Hw1.
    { subst w1. cbn. apply lookup_insert_eq. }
    assert (r1 ≠ r2) as Hne by congruence.
    pose proof (find_room_none_inv (room_heap w) name (Rooms (server w)) Hno) as Hold.
    assert (r1 ∉ Rooms (server w)) as Hfresh.
    { intros Hin. destruct (Hold r1 Hin) as (rm & Hrm & _). congruence. }
    assert (Rooms (server w2) = Rooms (server w) ++ [r1; r2]) as Hrooms.
    { subst w2 w1. cbn. by rewrite <- app_assoc. }
    unfold GetRoom, DeleteRoom. cbn [server set_server Rooms set_Rooms room_heap].
    rewrite Hrooms.
    rewrite remove_first_app_notin by done.
    rewrite remove_first_cons, decide_True by done.
    eapply find_room_first; [|subst w2; cbn; apply lookup_insert_eq|done].
    intros r' Hin. destruct (Hold r' Hin) as (rm' & Hrm' & Hn).
    exists rm'. split; [|done].
    assert (r1 ≠ r') as Hn1 by congruence.
    assert (room_heap w1 !! r' = Some rm') as Hrm1.
    { subst w1. cbn. by rewrite lookup_insert_ne. }
    assert (r2 ≠ r') as Hn2 by congruence.
    subst w2. cbn. by rewrite lookup_insert_ne.
Qed.

Lemma DeleteRoom_by_reference_witness :
  GetRoom "lobby"
    (DeleteRoom (CreateRoom "lobby" CreateIgoServer).1
       (CreateRoom "lobby" (CreateRoom "lobby" CreateIgoServer).2).2)
  = Ok (Some (CreateRoom "lobby" (CreateRoom "lobby" CreateIgoServer).2).1).
Proof.
  exact (proj2 (proj2 (proj2 (proj2 (DeleteRoom_by_reference 0 CreateIgoServer))))
           "lobby" eq_refl).
Defined.

(** X8.  On a hub without hooks whose listed clients are in the heap,
    accepting a connection adds one new client, with the identifier
    drawn, no listener and a new open connection, at the end of the
    list (which stays free of duplicates); when the first read on that
    connection fails, the receive loop ends, the list of clients is the
    one before the connection was accepted, the connection is closed
    and no user code was called. *)
Theorem accept_then_read_failure (app : Application) (uuid : string) (err : error)
  (rest : list Inbound) (s : State) :
  preConnectHandler (server (world s)) = None →
  connectedHandler (server (world s)) = None →
  disconnectedHandler (server (world s)) = None →
  clients_allocated (world s) →
  let conn := fresh (dom (conn_heap (world s))) in
  let client := fresh (dom (client_heap (world s))) in
  let s1 := (Handle app None uuid s).2 in
  (Handle app None uuid s).1 = Some client ∧
  (client ∉ Clients (server (world s))) ∧
  Clients (server (world s1)) = Clients (server (world s)) ++ [client] ∧
  client_heap (world s1) !! client = Some (mkClient uuid ∅ conn) ∧
  conn_heap (world s1) !! conn = Some (mkConn false []) ∧
  (NoDup (Clients (server (world s))) → NoDup (Clients (server (world s1)))) ∧
  ∃ s2, wsReader app client (ReadFailed err :: rest) s1 = Ok (Terminated, s2) ∧
    Clients (server (world s2)) = Clients (server (world s)) ∧
    client_heap (world s2) !! client = Some (mkClient uuid ∅ conn) ∧
    conn_heap (world s2) !! conn = Some (mkConn true []) ∧
    trace s2 = trace s.
Proof.
  intros Hpre Hcon Hdis Hall conn client s1.
  assert (client ∉ Clients (server (world s))) as Hfresh.
  { intros Hin. destruct (Hall _ Hin) as [cl Hcl].
    assert (client_heap (world s) !! client = None) as Hnone
      by (apply not_elem_of_dom; apply is_fresh).
    congruence. }
  assert (Handle app None uuid s =
            (Some client,
             set_world
               (set_server (set_Clients (Clients (server (world s)) ++ [client])
                              (server (world s)))
                  (set_client client (createClient uuid conn)
                     (set_conn conn (mkConn false []) (world s)))) s)) as HH.
  { unfold Handle. cbn [world set_world server set_conn]. rewrite Hpre.
    cbn [call_hook_if_set world set_world client_heap set_conn server set_client
           set_server set_Clients connectedHandler].
    destruct (world s) as [[cs rs p1 p2 p3 p4] ch rh kh]. cbn in *. subst. done. }
  subst s1. rewrite HH. cbn [fst snd].
  split_and!; try done.
  - cbn. apply lookup_insert_eq.
  - cbn. apply lookup_insert_eq.
  - intros Hnd. cbn. apply NoDup_app. split_and!; [done| |apply NoDup_singleton].
    intros c Hc Hc'. apply list_elem_of_singleton in Hc' as ->. done.
  - eexists. split.
    + cbn [wsReader world set_world]. unfold deref.
      cbn [client_heap set_server set_client conn_heap set_conn server].
      rewrite lookup_insert_eq. cbn [mbind Result_bind socket createClient].
      rewrite lookup_insert_eq. cbn [mbind Result_bind].
      cbn [disconnectedHandler set_Clients set_server server set_conn set_world world].
      rewrite Hdis. cbn [call_hook_if_set]. reflexivity.
    + cbn. rewrite remove_first_app_new by done. split_and!; try done.
      * apply lookup_insert_eq.
      * apply lookup_insert_eq.
Qed.

Lemma accept_then_read_failure_witness :
  ∃ s2, wsReader demo_app 0 [ReadFailed TransportError]
          (Handle demo_app None "u1" (mkState CreateIgoServer [])).2 = Ok (Terminated, s2) ∧
    Clients (server (world s2)) = [] ∧
    client_heap (world s2) !! 0 = Some (mkClient "u1" ∅ 0) ∧
    conn_heap (world s2) !! 0 = Some (mkConn true []) ∧
    trace s2 = [].
Proof.
  refine (proj2 (proj2 (proj2 (proj2 (proj2 (proj2
            (accept_then_read_failure demo_app "u1" TransportError []
               (mkState CreateIgoServer []) eq_refl eq_refl eq_refl _))))))).
  intros c Hc. cbn in Hc. by apply elem_of_nil in Hc.
Defined.

(** X9.  The receive loop handles frames one after the other: running
    it on [pre ++ rest] is running it on [pre] and, if it is still
    reading, on [rest] from the state reached; once it has ended, or
    has panicked, no later frame is looked at. *)
Theorem wsReader_sequential (app : Application) (client : ptr)
  (pre rest : list Inbound) (s : State) :
  wsReader app client (pre ++ rest) s =
    match wsReader app client pre s with
    | Ok (Reading, s1) => wsReader app client rest s1
    | Ok (Terminated, s1) => Ok (Terminated, s1)
    | Panic => Panic
    end.
Proof.
  revert s. induction pre as [|i pre IH]; intros s; [done|].
  rewrite <- app_comm_cons. destruct i as [err|err|result]; cbn [wsReader].
  - destruct (deref (client_heap (world s)) client) as [cl|]; [|done].
    cbn [mbind Result_bind].
    by destruct (deref _ (socket cl)).
  - apply IH.
  - destruct (handleClientData app client result s) as [s1|]; [|done].
    cbn [mbind Result_bind]. apply IH.
Qed.

(** X10.  The receive loop ends exactly on a failed read: when it does
    not panic on the frames given, it has terminated if and only if one
    of them was a read failure; undecodable frames and dispatched
    frames keep it reading. *)
Theorem wsReader_ends_on_read_failure (app : Application) (client : ptr)
  (inbound : list Inbound) (s s' : State) (st : LoopStatus) :
  wsReader app client inbound s = Ok (st, s') →
  (st = Terminated ↔ Exists read_failure inbound).
Proof.
  revert s. induction inbound as [|i inbound IH]; intros s; cbn [wsReader].
  - intros [= <- <-]. split; [done|]. by intros H%Exists_nil.
  - destruct i as [err|err|result].
    + destruct (deref (client_heap (world s)) client) as [cl|]; [|done].
      cbn [mbind Result_bind].
      destruct (deref _ (socket cl)) as [cn|]; [|done]. cbn [mbind Result_bind].
      intros [= <- <-]. split; [|done]. intros _. by apply Exists_cons_hd.
    + intros Hrun. rewrite (IH _ Hrun). rewrite Exists_cons. cbn. tauto.
    + destruct (handleClientData app client result s) as [s1|]; [|done].
      cbn [mbind Result_bind]. intros Hrun. rewrite (IH _ Hrun).
      rewrite Exists_cons. cbn. tauto.
Qed.

Lemma call_listener_keeps_no_error_hook app l c d s v s1 :
  listeners_keep_no_error_hook app →
  errHandler (server (world s)) = None →
  call_listener app l c d s = Ok (v, s1) →
  errHandler (server (world s1)) = None.
Proof.
  intros Happ. revert s. induction l as [f|e l IH]; intros s Hs; cbn [call_listener].
  - pose proof (Happ f c d (world s) Hs) as Hb.
    destruct (listener_body app f c d (world s)) as [v' w']. cbn in Hb.
    by intros [= <- <-].
  - unfold Client_Off. destruct (deref (client_heap (world s)) c) as [cl|]; [|done].
    cbn [mbind Result_bind]. apply IH. done.
Qed.

Lemma handleClientData_keeps_no_error_hook app c data s s1 :
  listeners_keep_no_error_hook app →
  errHandler (server (world s)) = None →
  handleClientData app c data s = Ok s1 →
  errHandler (server (world s1)) = None.
Proof.
  intros Happ Hs. unfold handleClientData.
  destruct (assert_string (data !! "event")) as [e|]; [|done].
  destruct (assert_map (data !! "data")) as [d|]; [|done].
  cbn [mbind Result_bind].
  destruct (if is_nil (data !! "ackId") then Ok "" else assert_string (data !! "ackId"))
    as [a|]; [|done].
  cbn [mbind Result_bind].
  destruct (deref (client_heap (world s)) c) as [cl|]; [|done].
  cbn [mbind Result_bind].
  destruct (Events cl !! e) as [l|]; [|by intros [= <-]].
  destruct (call_listener app l c d s) as [[v s2]|] eqn:Hcall; [|done].
  cbn [mbind Result_bind].
  pose proof (call_listener_keeps_no_error_hook _ _ _ _ _ _ _ Happ Hs Hcall) as Hs2.
  case_decide; [|by intros [= <-]].
  unfold Client_Emit.
  destruct (deref (client_heap (world s2)) c) as [cl2|]; [|done].
  cbn [mbind Result_bind].
  destruct (deref (conn_heap (world s2)) (socket cl2)) as [cn|]; [|done].
  cbn [mbind Result_bind]. destruct (Conn_WriteJSON _ cn) as [err cn'].
  cbn [mbind Result_bind]. by intros [= <-].
Qed.

(** X11.  The error hook has no setter: a new hub has none and
    [OnPreConnect], [OnConnected] and [OnDisconnected] leave it alone.
    As long as none is set (and no listener sets one), errors are
    silent: the receive loop behaves as if the frames that failed to
    decode had never arrived, and a request whose upgrade fails leaves
    the state as it was and creates no client. *)
Theorem undecodable_frames_are_dropped (app : Application) (client : ptr)
  (inbound : list Inbound) (s : State) :
  listeners_keep_no_error_hook app →
  errHandler (server (world s)) = None →
  wsReader app client inbound s = wsReader app client (filter decodable inbound) s ∧
  (∀ err uuid, Handle app (Some err) uuid s = (None, s)) ∧
  errHandler (server CreateIgoServer) = None ∧
  (∀ f w, errHandler (server (OnPreConnect f w)) = errHandler (server w) ∧
          errHandler (server (OnConnected f w)) = errHandler (server w) ∧
          errHandler (server (OnDisconnected f w)) = errHandler (server w)).
Proof.
  intros Happ Hs0. split_and!; [|by intros err uuid; cbn; rewrite Hs0|done|done].
  revert s Hs0. induction inbound as [|i inbound IH]; intros s Hs; [done|].
  rewrite filter_cons. destruct i as [err|err|result]; cbn [decodable].
  - rewrite decide_True by done. done.
  - rewrite decide_False by (by intros []). cbn [wsReader]. rewrite Hs.
    cbn [call_err_if_set]. by apply IH.
  - rewrite decide_True by done. cbn [wsReader].
    destruct (handleClientData app client result s) as [s1|] eqn:Hrun; [|done].
    cbn [mbind Result_bind]. apply IH.
    by eapply handleClientData_keeps_no_error_hook.
Qed.

Lemma undecodable_frames_are_dropped_witness :
  wsReader demo_app 0 [Undecodable DecodeError; Decoded frame_x] (mkState lobby_world [])
  = wsReader demo_app 0 [Decoded frame_x] (mkState lobby_world []).
Proof.
  refine (proj1 (undecodable_frames_are_dropped demo_app 0
            [Undecodable DecodeError; Decoded frame_x] (mkState lobby_world []) _ eq_refl)).
  intros f c d w Hw. exact Hw.
Defined.

Lemma wsReader_ends_on_read_failure_witness :
  Terminated = Terminated ↔ Exists read_failure [ReadFailed TransportError].
Proof.
  exact (wsReader_ends_on_read_failure demo_app 0 [ReadFailed TransportError]
           (mkState lobby_world []) (mkState lobby_world_disconnected []) Terminated
           eq_refl).
Defined.

(** ** Closing a client *)

(** X12.  [Close] closes the connection of the client and touches
    nothing else: the client stays listed in the hub and in its rooms.
    From then on every [Emit] on the client, and on any client sharing
    the connection, returns a transport error and writes nothing; a
    second [Close] changes nothing. *)
Theorem Client_Close_then_Emit (c : ptr) (cl : Client) (cn : Conn) (w : World) :
  client_heap w !! c = Some cl →
  conn_heap w !! socket cl = Some cn →
  let w1 := set_conn (socket cl) (mkConn true (written cn)) w in
  Client_Close c w = Ok w1 ∧
  server w1 = server w ∧ room_heap w1 = room_heap w ∧ client_heap w1 = client_heap w ∧
  (∀ e d, Client_Emit c e d w1 = Ok (Some TransportError, w1)) ∧
  (∀ c2 cl2 e d, client_heap w !! c2 = Some cl2 → socket cl2 = socket cl →
     Client_Emit c2 e d w1 = Ok (Some TransportError, w1)) ∧
  Client_Close c w1 = Ok w1.
Proof.
  intros Hcl Hcn w1.
  assert (conn_heap w1 !! socket cl = Some (mkConn true (written cn))) as Hcn1.
  { subst w1. cbn. apply lookup_insert_eq. }
  split_and!; try done.
  - unfold Client_Close. rewrite (deref_Some _ _ _ Hcl). cbn [mbind Result_bind].
    by rewrite (deref_Some _ _ _ Hcn).
  - intros e d. eapply Client_Emit_closed; [exact Hcl|exact Hcn1|done].
  - intros c2 cl2 e d Hcl2 Hsock. eapply Client_Emit_closed; [exact Hcl2|rewrite Hsock; exact Hcn1|done].
  - unfold Client_Close. rewrite (deref_Some (client_heap w1) c cl) by done.
    cbn [mbind Result_bind]. rewrite (deref_Some _ _ _ Hcn1). cbn [mbind Result_bind].
    f_equal. subst w1. unfold set_conn, Conn_Close. cbn. f_equal.
    by rewrite insert_insert_eq.
Qed.

Lemma Client_Close_then_Emit_witness :
  Client_Emit 0 "ping" (JObj ∅) (set_conn 0 (mkConn true []) lobby_world)
  = Ok (Some TransportError, set_conn 0 (mkConn true []) lobby_world).
Proof.
  exact (proj1 (proj2 (proj2 (proj2 (proj2
           (Client_Close_then_Emit 0 (mkClient "c0" ∅ 0) (mkConn false []) lobby_world
              eq_refl eq_refl))))) "ping" (JObj ∅)).
Defined.

(** * Further properties of the client *)

(** ** Dispatch and the registry *)

Lemma log_all_nil data env : log_all [] data env = env.
Proof. unfold log_all. cbn. rewrite app_nil_r. by destruct env. Qed.

Lemma log_all_cons h hs data env :
  log_all (h :: hs) data env = log_all hs data (log (Invoked h data) env).
Proof. unfold log_all, log. cbn. by rewrite <- app_assoc. Qed.

Lemma invoke_quiet app data h env :
  quiet app data h → invoke app h data env = Done (log (Invoked h data) env).
Proof. intros (f & -> & Hf). cbn [invoke]. unfold call_user. by rewrite Hf. Qed.

Lemma for_of_quiet app fuel e i data arr env :
  _handlers (client env) !! e = Some arr →
  Forall (quiet app data) (drop i arr) →
  length arr - i < fuel →
  for_of app fuel e i data env = Done (log_all (drop i arr) data env).
Proof.
  revert i env. induction fuel as [|fuel IH]; intros i env Harr Hq Hlen; [lia|].
  cbn [for_of]. rewrite Harr. destruct (arr !! i) as [h|] eqn:Hi.
  - rewrite (drop_S _ _ _ Hi) in *. apply Forall_cons in Hq as [Hh Hq].
    rewrite (invoke_quiet _ _ _ _ Hh). cbn [andThen]. rewrite log_all_cons.
    apply IH; [done|done|]. apply lookup_lt_Some in Hi. lia.
  - apply lookup_ge_None in Hi. rewrite drop_ge by done. by rewrite log_all_nil.
Qed.


(** X14.  A one-shot handler removes itself from the array the
    dispatch loop is iterating over, so the handler registered right
    after it is skipped for that frame: with the array
    [once(f), next, rest...] the frame calls [f] and the handlers of
    [rest], not [next], and leaves the array [next, rest...]. *)
Theorem once_handler_hides_its_successor (app : UserCode) (fuel : nat) (e : string)
  (cid : nat) (f : fn) (next : EventHandler) (rest : list EventHandler)
  (data : EventArg) (env : Env) :
  e ≠ "#handshake" →
  _handlers (client env) !! e = Some (OnceHandler cid e f :: next :: rest) →
  (∀ c, handler_calls app f data c = []) →
  Forall (quiet app data) rest →
  length rest < fuel →
  let env1 := log_all [OnceHandler cid e f; UserHandler f] data env in
  let env2 := with_client (set_handlers (<[e := next :: rest]> (_handlers (client env)))
                             (client env)) env1 in
  onMessage app (S (S fuel)) (mkMessage e data) env = Done (log_all rest data env2).
Proof.
  intros Hne Harr Hf Hq Hlen env1 env2.
  unfold onMessage. cbn [msg_event msg_data]. rewrite decide_False by done.
  rewrite Harr. cbn [for_of]. rewrite Harr. cbn [lookup list_lookup].
  cbn [invoke]. unfold call_user. rewrite Hf. cbn [exec_calls andThen].
  set (envl := log _ (log _ env)).
  assert (off e (OnceHandler cid e f) envl = env2) as ->.
  { unfold off. subst envl. cbn [client log]. rewrite Harr.
    unfold indexOf. cbn [list_find]. rewrite decide_True by done. cbn.
    subst env2 env1. unfold with_client, log_all, log. cbn.
    by rewrite <- app_assoc. }
  assert (_handlers (client env2) !! e = Some (next :: rest)) as Harr2.
  { subst env2. cbn. apply lookup_insert_eq. }
  change (for_of app (S fuel) e 1 data env2 = Done (log_all rest data env2)).
  rewrite (for_of_quiet app (S fuel) e 1 data (next :: rest) env2 Harr2); [done|done|].
  cbn. lia.
Qed.

Lemma once_handler_hides_its_successor_witness :
  onMessage quiet_client 3 (mkMessage "x" None) two_handlers
  = Done (with_client (set_handlers {[ "x" := [UserHandler 1] ]} (client two_handlers))
            (log_all [OnceHandler 0 "x" 0; UserHandler 0] None two_handlers)).
Proof.
  refine (once_handler_hides_its_successor quiet_client 1 "x" 0 0 (UserHandler 1) []
            None two_handlers _ _ _ _ _); try done.
  cbn. lia.
Defined.










(** ** The handshake *)

Section Handshake.
Context (app : UserCode).

Lemma call_if_set_logs hook env :
  ∃ env', outcome_env (call_if_set app hook env) = Some env' ∧
    _id (client env') = _id (client env) ∧
    invocations env' = invocations env ++ hook_invocation hook.
Proof.
  destruct hook as [f|]; unfold call_if_set, hook_invocation.
  - destruct (exec_calls_preserved None (hook_calls app f (client (log (HookInvoked f) env)))
                (log (HookInvoked f) env)) as (env' & Hrun & Hpr & Hdone).
    exists env'. split_and!.
    + by destruct Hrun as [->|[msg ->]].
    + by rewrite (pr_id _ _ _ Hpr).
    + by rewrite (pr_invocations _ _ _ Hpr).
  - exists env. by rewrite app_nil_r.
Qed.

Lemma get_clientId_defined v env k :
  v ≠ JNull → get_clientId (Some v) env k = k (clientId_of v).
Proof. by destruct v. Qed.

(** X17.  The handshake frame, received while the identity is the
    empty string.  Data [undefined] or [null]: reading [clientId]
    throws and the state is unchanged.  Any other data: the identity
    becomes [data.clientId], [undefined] when there is none, and the
    connected hook, if set, is called once; unless that identity is the
    empty string again, every later handshake frame is refused with a
    line on the console and no other change. *)
Theorem handshake_edge_cases (fuel : nat) (env : Env) :
  get_id env = Some (JStr "") →
  (∀ data, data = None ∨ data = Some JNull →
     onMessage app fuel (mkMessage "#handshake" data) env = Thrown "TypeError" env) ∧
  (∀ v, v ≠ JNull →
     ∃ env1,
       outcome_env (onMessage app fuel (mkMessage "#handshake" (Some v)) env) = Some env1 ∧
       get_id env1 = clientId_of v ∧
       invocations env1 =
         invocations env ++ hook_invocation (_connectedHandler (client env)) ∧
       (clientId_of v ≠ Some (JStr "") →
          ∀ fuel' data',
            onMessage app fuel' (mkMessage "#handshake" data') env1
            = Done (rejected_handshake env1))).
Proof.
  intros Hid. unfold get_id in Hid. split.
  - intros data Hdata. unfold onMessage. cbn [msg_event msg_data].
    rewrite decide_True by done. rewrite Hid. cbn [not_empty_string].
    by destruct Hdata as [->| ->].
  - intros v Hv. unfold onMessage at 1. cbn [msg_event msg_data].
    rewrite decide_True by done. rewrite Hid. cbn [not_empty_string].
    rewrite get_clientId_defined by done. cbn zeta.
    destruct (call_if_set_logs
                (_connectedHandler (client (with_client (set_id (clientId_of v) (client env)) env)))
                (with_client (set_id (clientId_of v) (client env)) env))
      as (env1 & Hrun & Hid1 & Hinv).
    exists env1. split_and!; [done| | |].
    + unfold get_id. by rewrite Hid1.
    + by rewrite Hinv.
    + intros Hne fuel' data'. unfold onMessage. cbn [msg_event msg_data].
      rewrite decide_True by done. rewrite Hid1. cbn.
      destruct (clientId_of v) as [[| | |s| |]|]; try done.
      destruct s; [done|]. done.
Qed.

End Handshake.

Lemma handshake_edge_cases_witness :
  ∃ env1,
    outcome_env (onMessage quiet_client 0 (mkMessage "#handshake" (Some (JNum 3)))
                   (constructor "ws://hub" 5000)) = Some env1 ∧
    get_id env1 = None.
Proof.
  destruct (proj2 (handshake_edge_cases quiet_client 0 (constructor "ws://hub" 5000) eq_refl)
              (JNum 3)) as (env1 & Hrun & Hid & _).
  - discriminate.
  - exists env1. by split.
Defined.

(** ** What a run keeps *)






Section StableClient.
Context (app : UserCode).













End StableClient.


